(** * useModel: a change-tracking model hook, embedded in Rocq

    The development follows [useModel] of the repository: the heap of
    JavaScript objects the hook works on, [JSON.stringify] and
    [JSON.parse] as the hook uses them, the proxy factory [createProxy]
    with its [get] and [set] handlers, and the memoised hook body with
    the control object ([findErrors], [isDirty], [reset]).

    Conventions of the embedding.
    - Object identity is a heap location; [===] on objects is equality of
      locations, on scalars equality of values.
    - A JSON text is represented by its syntax tree ([json]).
      [JSON.stringify] without indentation emits exactly one text per
      tree, so [!==] on two such texts is disequality of trees.
    - Numbers are integers; dates, symbols and accessor properties are not
      modelled, and [JSON.stringify] is embedded for data without
      [toJSON] methods.  Methods are the inherited ones an environment
      provides ([Runtime]); own properties hold data or functions.  A
      method works on the heap and does not call back into a proxy.
    - [getMap] is a plain object.  Its own properties are a [gmap]; the one
      inherited member the code uses, [hasOwnProperty], is shadowed by an
      own property of that name.
    - The key __proto__ names the prototype.  A read of it gives an own
      property of that name or what the environment says the prototype
      is; an assignment under it changes an own property of that name or
      adds none.  What a replaced prototype, of a target or of a [getMap],
      changes afterwards is not modelled.
    - What a caller writes through a proxy or passes to a method is a
      plain value or a raw object; handing a proxy back is not modelled.
    - A call that throws yields [Throws]; the state it leaves is kept. *)

From Stdlib Require Import ZArith Ascii String List Bool Lia.
From stdpp Require Import base option list gmap strings.

Set Warnings "-register-all".
Local Open Scope string_scope.
Local Open Scope list_scope.

(** ** Values and the heap *)

Abbreviation loc := nat (only parsing).
Abbreviation method := nat (only parsing).

(** A JavaScript value as it can sit in a property of a data object. *)
Inductive value :=
| VUndef
| VNull
| VBool (b : bool)
| VNum (n : Z)
| VStr (s : string)
| VRef (l : loc)
| VFun (m : method).

(** An ordinary object: own properties in enumeration order; an array:
    its elements (a hole reads as [VUndef]) and its named own properties. *)
Inductive obj :=
| ORec (fields : list (string * value))
| OArr (elems : list value) (named : list (string * value)).

Abbreviation heap := (list obj) (only parsing).

Definition alloc (o : obj) (h : heap) : heap * loc := (h ++ [o], length h).

#[global] Instance value_eq_dec : EqDecision value.
Proof. solve_decision. Defined.

(** [a === b] *)
Definition strict_eq (a b : value) : bool := bool_decide (a = b).

(** ** Property keys *)

Definition digit_of (c : ascii) : option nat :=
  let n := nat_of_ascii c in
  if (48 <=? n)%nat && (n <=? 57)%nat then Some (n - 48)%nat else None.

Fixpoint digits_value (acc : nat) (s : string) : option nat :=
  match s with
  | EmptyString => Some acc
  | String c r =>
      match digit_of c with
      | Some d => digits_value (10 * acc + d) r
      | None => None
      end
  end.

(** A canonical array index: a decimal numeral without a leading zero. *)
Definition array_index (s : string) : option nat :=
  match s with
  | EmptyString => None
  | String c r =>
      if Ascii.eqb c "0"%char
      then (if String.eqb r "" then Some 0%nat else None)
      else digits_value 0 s
  end.

(** The order in which an ordinary object enumerates its own keys puts
    integer keys first, ascending, and then names by insertion. *)
Definition comes_before (k k' : string) : bool :=
  match array_index k, array_index k' with
  | Some i, Some j => (i <? j)%nat
  | Some _, None => true
  | None, _ => false
  end.

Fixpoint assoc {A} (k : string) (fs : list (string * A)) : option A :=
  match fs with
  | [] => None
  | (k', v) :: r => if String.eqb k k' then Some v else assoc k r
  end.

(** [o[k] = v] on the own properties of an ordinary object. *)
Fixpoint put_field {A} (k : string) (v : A) (fs : list (string * A))
  : list (string * A) :=
  match fs with
  | [] => [(k, v)]
  | (k', v') :: r =>
      if String.eqb k k' then (k, v) :: r
      else if comes_before k k' then (k, v) :: (k', v') :: r
      else (k', v') :: put_field k v r
  end.

(** Keys are pairwise distinct and in enumeration order. *)
Fixpoint ordered_keys (ks : list string) : bool :=
  match ks with
  | [] => true
  | k :: r =>
      forallb (fun k' => negb (String.eqb k' k) && negb (comes_before k' k)) r
      && ordered_keys r
  end.

Definition canonical {A} (fs : list (string * A)) : bool :=
  ordered_keys (map fst fs).

(** ** JSON texts *)

Inductive json :=
| JNull
| JBool (b : bool)
| JNum (n : Z)
| JStr (s : string)
| JArr (items : list json)
| JObj (members : list (string * json)).

Fixpoint json_eqb (a b : json) {struct a} : bool :=
  match a, b with
  | JNull, JNull => true
  | JBool x, JBool y => Bool.eqb x y
  | JNum x, JNum y => Z.eqb x y
  | JStr x, JStr y => String.eqb x y
  | JArr xs, JArr ys =>
      (fix go (xs ys : list json) : bool :=
         match xs, ys with
         | [], [] => true
         | x :: xs', y :: ys' => json_eqb x y && go xs' ys'
         | _, _ => false
         end) xs ys
  | JObj xs, JObj ys =>
      (fix go (xs ys : list (string * json)) : bool :=
         match xs, ys with
         | [], [] => true
         | (k, x) :: xs', (k', y) :: ys' =>
             String.eqb k k' && json_eqb x y && go xs' ys'
         | _, _ => false
         end) xs ys
  | _, _ => false
  end.

Fixpoint depth (j : json) : nat :=
  match j with
  | JArr js => S (fold_right (fun x m => Nat.max (depth x) m) 0%nat js)
  | JObj kvs => S (fold_right (fun kx m => Nat.max (depth (snd kx)) m) 0%nat kvs)
  | _ => 0%nat
  end.

(** A text [JSON.stringify] can emit for an object graph whose objects
    enumerate their keys as JavaScript does. *)
Fixpoint json_wf (j : json) : bool :=
  match j with
  | JArr js => forallb json_wf js
  | JObj kvs => canonical kvs && forallb (fun kx => json_wf (snd kx)) kvs
  | _ => true
  end.

(** ** Results of calls that can throw *)

Inductive outcome (A : Type) :=
| Returns (a : A)
| Throws.
Arguments Returns {A} a.
Arguments Throws {A}.

Definition obind {A B} (c : outcome A) (k : A -> outcome B) : outcome B :=
  match c with
  | Returns a => k a
  | Throws => Throws
  end.

Notation "'let?' x := c 'in' k" := (obind c (fun x => k))
  (at level 10, x pattern, c at level 100, k at level 200).

(** ** The environment: inherited methods and built-in coercions *)

Class Runtime := {
  (** the function found on the prototype chain of an object under a key
      that is not an own property *)
  inherited : obj -> string -> option method;
  (** what [o.__proto__] evaluates to for an object without an own
      property of that name: its prototype *)
  prototype_of : obj -> value;
  (** [value.call(target, ...args)]: the heap after the call and what the
      call returned, or that it threw *)
  invoke : method -> loc -> list value -> heap -> heap * outcome value;
  (** the length an assignment to [length] of an array sets, or none when
      the assignment raises a RangeError *)
  array_length_of : value -> option nat
}.

(** ** JSON.stringify *)

Fixpoint ser_fields (f : value -> outcome (option json))
  (fs : list (string * value)) : outcome (list (string * json)) :=
  match fs with
  | [] => Returns []
  | (k, v) :: r =>
      let? oj := f v in
      let? js := ser_fields f r in
      Returns (match oj with Some j => (k, j) :: js | None => js end)
  end.

Fixpoint ser_elems (f : value -> outcome (option json))
  (es : list value) : outcome (list json) :=
  match es with
  | [] => Returns []
  | v :: r =>
      let? oj := f v in
      let? js := ser_elems f r in
      Returns (match oj with Some j => j | None => JNull end :: js)
  end.

(** Serialization to nesting depth [n].  [Returns None] is the result
    [undefined]; running out of depth or meeting a missing object throws. *)
Fixpoint ser (n : nat) (h : heap) (v : value) : outcome (option json) :=
  match n with
  | O => Throws
  | S n' =>
      match v with
      | VUndef | VFun _ => Returns None
      | VNull => Returns (Some JNull)
      | VBool b => Returns (Some (JBool b))
      | VNum z => Returns (Some (JNum z))
      | VStr s => Returns (Some (JStr s))
      | VRef l =>
          match h !! l with
          | None => Throws
          | Some (ORec fs) =>
              let? ms := ser_fields (ser n' h) fs in Returns (Some (JObj ms))
          | Some (OArr es _) =>
              let? js := ser_elems (ser n' h) es in Returns (Some (JArr js))
          end
      end
  end.

(** [JSON.stringify(v)].  A chain of nested objects longer than the heap
    has objects visits one of them twice, which is the circular structure
    on which [JSON.stringify] throws. *)
Definition JSON_stringify (h : heap) (v : value) : outcome (option json) :=
  ser (S (length h)) h v.

(** ** JSON.parse *)

Definition build_items (f : json -> heap -> heap * value)
  : list json -> heap -> heap * list value :=
  fix go js h :=
    match js with
    | [] => (h, [])
    | j :: r =>
        let '(h1, v) := f j h in
        let '(h2, vs) := go r h1 in (h2, v :: vs)
    end.

Definition build_members (f : json -> heap -> heap * value)
  : list (string * json) -> heap -> list (string * value)
    -> heap * list (string * value) :=
  fix go kvs h acc :=
    match kvs with
    | [] => (h, acc)
    | (k, j) :: r =>
        let '(h1, v) := f j h in go r h1 (put_field k v acc)
    end.

(** The value a text denotes, built in the heap: members are defined in
    the order of the text, each after its value was built. *)
Fixpoint build (j : json) (h : heap) {struct j} : heap * value :=
  match j with
  | JNull => (h, VNull)
  | JBool b => (h, VBool b)
  | JNum z => (h, VNum z)
  | JStr s => (h, VStr s)
  | JArr js =>
      let '(h1, vs) := build_items build js h in
      let '(h2, l) := alloc (OArr vs []) h1 in (h2, VRef l)
  | JObj kvs =>
      let '(h1, fs) := build_members build kvs h [] in
      let '(h2, l) := alloc (ORec fs) h1 in (h2, VRef l)
  end.

(** [JSON.parse(text)]; the text [undefined] is a SyntaxError. *)
Definition JSON_parse (text : option json) (h : heap) : outcome (heap * value) :=
  match text with
  | Some j => Returns (build j h)
  | None => Throws
  end.

(** ** Reading and writing a property of a raw object *)

Section Properties.
Context `{Runtime}.

Definition proto_get (o : obj) (k : string) : value :=
  if String.eqb k "__proto__" then prototype_of o
  else match inherited o k with
       | Some m => VFun m
       | None => VUndef
       end.

(** [o[k] = v] on the own properties [fs] of an object.  [__proto__] is an
    own property of an object that has one, as [JSON.parse] makes it;
    otherwise the assignment goes to the prototype setter and adds no own
    property. *)
Definition assign_field (k : string) (v : value) (fs : list (string * value))
  : list (string * value) :=
  if String.eqb k "__proto__" then
    match assoc k fs with
    | Some _ => put_field k v fs
    | None => fs
    end
  else put_field k v fs.

(** [target[prop]] *)
Definition get_prop (h : heap) (l : loc) (k : string) : value :=
  match h !! l with
  | None => VUndef
  | Some (ORec fs as o) =>
      match assoc k fs with
      | Some v => v
      | None => proto_get o k
      end
  | Some (OArr es named as o) =>
      match array_index k with
      | Some i => match es !! i with Some v => v | None => proto_get o k end
      | None =>
          if String.eqb k "length" then VNum (Z.of_nat (length es))
          else match assoc k named with
               | Some v => v
               | None => proto_get o k
               end
      end
  end.

(** [target[prop] = v] on the raw object *)
Definition set_prop (h : heap) (l : loc) (k : string) (v : value) : outcome heap :=
  match h !! l with
  | None => Throws
  | Some (ORec fs) => Returns (<[l := ORec (assign_field k v fs)]> h)
  | Some (OArr es named) =>
      match array_index k with
      | Some i =>
          let es' := if (i <? length es)%nat then <[i := v]> es
                     else es ++ replicate (i - length es) VUndef ++ [v] in
          Returns (<[l := OArr es' named]> h)
      | None =>
          if String.eqb k "length" then
            match array_length_of v with
            | Some n =>
                Returns (<[l := OArr (take n es ++ replicate (n - length es) VUndef) named]> h)
            | None => Throws
            end
          else Returns (<[l := OArr es (assign_field k v named)]> h)
      end
  end.

End Properties.

(** Equality of two results of [JSON.stringify] ([===] on string or
    [undefined]). *)
Definition text_eqb (a b : option json) : bool :=
  match a, b with
  | Some x, Some y => json_eqb x y
  | None, None => true
  | _, _ => false
  end.

(** ** The world the hook runs in *)

Abbreviation pid := nat (only parsing).
Abbreviation wid := nat (only parsing).

(** One [Proxy] made by [createProxy]: its target and the [getMap] of the
    closure that made it. *)
Record proxy_rec := { target : loc; getMap : gmap string pid }.

(** One wrapper closure returned for a method: the captured [target] and
    [value]. *)
Record wrapper_rec := { w_target : loc; w_method : method }.

(** What a read through a proxy hands to the caller. *)
Inductive handle :=
| Plain (v : value)
| Proxy (p : pid)
| Wrapper (f : wid).

Record world := {
  objects : heap;
  proxies : list proxy_rec;
  wrappers : list wrapper_rec;
  (** the module-level [counter] *)
  counter : nat;
  (** the state cells behind [setResetId] and [setRefreshId] *)
  resetId : nat;
  refreshId : nat
}.

Definition with_objects (h : heap) (w : world) : world :=
  {| objects := h; proxies := proxies w; wrappers := wrappers w;
     counter := counter w; resetId := resetId w; refreshId := refreshId w |}.

Definition with_proxies (ps : list proxy_rec) (w : world) : world :=
  {| objects := objects w; proxies := ps; wrappers := wrappers w;
     counter := counter w; resetId := resetId w; refreshId := refreshId w |}.

Definition with_wrappers (fs : list wrapper_rec) (w : world) : world :=
  {| objects := objects w; proxies := proxies w; wrappers := fs;
     counter := counter w; resetId := resetId w; refreshId := refreshId w |}.

(** [++counter] *)
Definition bump (w : world) : world :=
  {| objects := objects w; proxies := proxies w; wrappers := wrappers w;
     counter := S (counter w); resetId := resetId w; refreshId := refreshId w |}.

(** [reset = () => setResetId(++counter)] *)
Definition reset (w : world) : world :=
  {| objects := objects w; proxies := proxies w; wrappers := wrappers w;
     counter := S (counter w); resetId := S (counter w); refreshId := refreshId w |}.

(** [refresh = () => setRefreshId(++counter)] *)
Definition refresh (w : world) : world :=
  {| objects := objects w; proxies := proxies w; wrappers := wrappers w;
     counter := S (counter w); resetId := resetId w; refreshId := S (counter w) |}.

(** ** createProxy *)

Section ProxyFactory.
Context `{Runtime}.

(** [new Proxy(obj, handlers)] with a fresh, empty [getMap]. *)
Definition new_proxy (l : loc) (w : world) : world * pid :=
  (with_proxies (proxies w ++ [{| target := l; getMap := ∅ |}]) w,
   length (proxies w)).

(** [createProxy(obj)]; a [Proxy] cannot be made of a value that is not an
    object. *)
Definition createProxy (v : value) (w : world) : outcome (world * pid) :=
  match v with
  | VRef l => Returns (new_proxy l w)
  | _ => Throws
  end.

Definition new_wrapper (l : loc) (m : method) (w : world) : world * wid :=
  (with_wrappers (wrappers w ++ [{| w_target := l; w_method := m |}]) w,
   length (wrappers w)).

Definition cache (p : pid) (prop : string) (q : pid) (w : world) : world :=
  match proxies w !! p with
  | Some pr =>
      with_proxies
        (<[p := {| target := target pr; getMap := <[prop := q]> (getMap pr) |}]>
           (proxies w)) w
  | None => w
  end.

Definition uncache (p : pid) (prop : string) (w : world) : world :=
  match proxies w !! p with
  | Some pr =>
      with_proxies
        (<[p := {| target := target pr; getMap := delete prop (getMap pr) |}]>
           (proxies w)) w
  | None => w
  end.

(** The [get] handler of proxy [p].  [getMap] is a plain object, and
    [getMap.hasOwnProperty] is looked up on it like any property: once a
    child proxy is cached under the key hasOwnProperty, that own property
    shadows the inherited method, and the call of it, a call of a proxy of
    a data object, throws a TypeError.  [getMap[prop] = ...] under the key
    __proto__ goes to the prototype setter and caches nothing. *)
Definition proxy_get (p : pid) (prop : string) (w : world) : world * outcome handle :=
  match proxies w !! p with
  | None => (w, Throws)
  | Some pr =>
      match getMap pr !! "hasOwnProperty" with
      | Some _ => (w, Throws)
      | None =>
          match getMap pr !! prop with
          | Some q => (w, Returns (Proxy q))
          | None =>
              let value := get_prop (objects w) (target pr) prop in
              match value with
              | VUndef | VNull => (w, Returns (Plain value))
              | VRef l =>
                  let '(w1, q) := new_proxy l w in
                  ((if String.eqb prop "__proto__" then w1 else cache p prop q w1),
                   Returns (Proxy q))
              | VFun m =>
                  let '(w1, f) := new_wrapper (target pr) m w in
                  (w1, Returns (Wrapper f))
              | _ => (w, Returns (Plain value))
              end
          end
      end
  end.

(** Calling the wrapper a read of a method returned. *)
Definition call_wrapper (f : wid) (args : list value) (w : world)
  : world * outcome value :=
  match wrappers w !! f with
  | None => (w, Throws)
  | Some wr =>
      match JSON_stringify (objects w) (VRef (w_target wr)) with
      | Throws => (w, Throws)
      | Returns before =>
          let '(h1, r) := invoke (w_method wr) (w_target wr) args (objects w) in
          let w1 := with_objects h1 w in
          match r with
          | Throws => (w1, Throws)
          | Returns result =>
              match JSON_stringify h1 (VRef (w_target wr)) with
              | Throws => (w1, Throws)
              | Returns after =>
                  ((if text_eqb after before then w1 else refresh w1),
                   Returns result)
              end
          end
      end
  end.

(** [item === undefined ? item : JSON.parse(JSON.stringify(item))] *)
Definition normalize (item : value) (h : heap) : outcome (heap * value) :=
  match item with
  | VUndef => Returns (h, VUndef)
  | _ => let? text := JSON_stringify h item in JSON_parse text h
  end.

(** The [set] handler of proxy [p]. *)
Definition proxy_set (p : pid) (prop : string) (item : value) (w : world)
  : world * outcome bool :=
  match proxies w !! p with
  | None => (w, Throws)
  | Some pr =>
      if strict_eq (get_prop (objects w) (target pr) prop) item
      then (w, Returns true)
      else
        let w1 := uncache p prop w in
        match normalize item (objects w1) with
        | Throws => (w1, Throws)
        | Returns (h1, v) =>
            match set_prop h1 (target pr) prop v with
            | Throws => (with_objects h1 w1, Throws)
            | Returns h2 => (refresh (with_objects h2 w1), Returns true)
            end
        end
  end.

End ProxyFactory.

(** ** The hook *)

(** An error record of the validator. *)
Record ValidationError := { field : string; message : string }.

(** What the compiled validator returns: [true] or the ordered errors. *)
Inductive checked :=
| Valid
| Invalid (errs : list ValidationError).

(** What the memo cells of one hook instance hold after a render, with the
    dependencies each was computed from. *)
Record memo := {
  seen_original : value;
  originalStr : option json;
  seen_resetId : nat;
  model : value;
  seen_refreshId : nat;
  proxy : pid
}.

(** JavaScript truthiness, for [original || {}] and [!prop]. *)
Definition truthy (v : value) : bool :=
  match v with
  | VUndef | VNull | VBool false | VNum 0 | VStr "" => false
  | _ => true
  end.

Section Hook.
(** [new Validator().compile(schema)], applied to the heap the data is in *)
Variable validator : heap -> value -> checked.

(** [JSON.stringify(original || {})] *)
Definition compute_originalStr (original : value) (w : world)
  : outcome (world * option json) :=
  let '(h, v) :=
    if truthy original then (objects w, original)
    else let '(h, l) := alloc (ORec []) (objects w) in (h, VRef l) in
  let? text := JSON_stringify h v in
  Returns (with_objects h w, text).

(** [JSON.parse(originalStr)] *)
Definition compute_model (text : option json) (w : world) : outcome (world * value) :=
  let? hv := JSON_parse text (objects w) in
  Returns (with_objects (fst hv) w, snd hv).

(** The first render: both [useState(++counter)] initialise their cell,
    every memo is computed. *)
Definition mount (original : value) (w : world) : outcome (world * memo) :=
  let w1 :=
    {| objects := objects w; proxies := proxies w; wrappers := wrappers w;
       counter := S (S (counter w)); resetId := S (counter w);
       refreshId := S (S (counter w)) |} in
  let? ws := compute_originalStr original w1 in
  let? wm := compute_model (snd ws) (fst ws) in
  let? wp := createProxy (snd wm) (fst wm) in
  Returns (fst wp,
           {| seen_original := original; originalStr := snd ws;
              seen_resetId := resetId w1; model := snd wm;
              seen_refreshId := refreshId w1; proxy := snd wp |}).

(** A later render with the [original] the caller passes now.  The two
    [++counter] arguments are evaluated again; a memo is recomputed when
    one of its dependencies changed. *)
Definition render (original : value) (w : world) (m : memo) : outcome (world * memo) :=
  let w1 := bump (bump w) in
  let same_original := strict_eq original (seen_original m) in
  let? ws :=
    if same_original then Returns (w1, originalStr m)
    else compute_originalStr original w1 in
  let? wm :=
    if text_eqb (snd ws) (originalStr m) && same_original
       && Nat.eqb (resetId w) (seen_resetId m)
    then Returns (fst ws, model m)
    else compute_model (snd ws) (fst ws) in
  let? wp :=
    if strict_eq (snd wm) (model m) && Nat.eqb (refreshId w) (seen_refreshId m)
    then Returns (fst wm, proxy m)
    else createProxy (snd wm) (fst wm) in
  Returns (fst wp,
           {| seen_original := original; originalStr := snd ws;
              seen_resetId := resetId w; model := snd wm;
              seen_refreshId := refreshId w; proxy := snd wp |}).

(** [isDirty = () => JSON.stringify(model) !== originalStr] *)
Definition isDirty (w : world) (m : memo) : outcome bool :=
  let? text := JSON_stringify (objects w) (model m) in
  Returns (negb (text_eqb text (originalStr m))).

(** The test of the [filter] callback of [findErrors]. *)
Definition matches (prop : string) (e : ValidationError) : bool :=
  negb (String.eqb (field e) "")
  && (String.eqb (field e) prop
      || String.prefix (prop ++ ".") (field e)
      || String.prefix (prop ++ "[") (field e)).

(** [findErrors(prop)]; [None] is the omitted argument. *)
Definition findErrors (prop : option string) (w : world) (m : memo)
  : list ValidationError :=
  match validator (objects w) (model m) with
  | Valid => []
  | Invalid all =>
      match prop with
      | None => all
      | Some p => if String.eqb p "" then all else List.filter (matches p) all
      end
  end.

End Hook.

(** ** A sample environment: three array methods *)

(** Arrays inherit [push], [pop] and [slice]; nothing else is inherited,
    and the prototypes themselves are not objects of the sample heaps, so
    [__proto__] reads as [undefined] where it is no own property. *)

Definition m_push : method := 0%nat.
Definition m_pop : method := 1%nat.
Definition m_slice : method := 2%nat.

Definition sample_inherited (o : obj) (k : string) : option method :=
  match o with
  | OArr _ _ =>
      if String.eqb k "push" then Some m_push
      else if String.eqb k "pop" then Some m_pop
      else if String.eqb k "slice" then Some m_slice
      else None
  | ORec _ => None
  end.

(** The index [slice] starts or ends at for a numeric or omitted argument. *)
Definition relative_index (len : nat) (dflt : nat) (arg : option value) : option nat :=
  match arg with
  | None | Some VUndef => Some dflt
  | Some (VNum z) =>
      Some (if (z <? 0)%Z then Z.to_nat (Z.max (Z.of_nat len + z) 0)
            else Nat.min (Z.to_nat z) len)
  | Some _ => None
  end.

(** [push], [pop] and [slice] on an array; [slice] for numeric or omitted
    bounds.  Any other call is left to throw. *)
Definition sample_invoke (m : method) (l : loc) (args : list value) (h : heap)
  : heap * outcome value :=
  match h !! l with
  | Some (OArr es named) =>
      match m with
      | 0%nat =>
          (<[l := OArr (es ++ args) named]> h,
           Returns (VNum (Z.of_nat (length es + length args))))
      | 1%nat =>
          match reverse es with
          | [] => (h, Returns VUndef)
          | x :: r => (<[l := OArr (reverse r) named]> h, Returns x)
          end
      | 2%nat =>
          match relative_index (length es) 0%nat (args !! 0%nat),
                relative_index (length es) (length es) (args !! 1%nat) with
          | Some a, Some b =>
              let '(h1, l1) := alloc (OArr (take (b - a) (drop a es)) []) h in
              (h1, Returns (VRef l1))
          | _, _ => (h, Throws)
          end
      | _ => (h, Throws)
      end
  | _ => (h, Throws)
  end.

Definition sample_array_length_of (v : value) : option nat :=
  match v with
  | VNum z => if (0 <=? z)%Z then Some (Z.to_nat z) else None
  | _ => None
  end.

Definition sample_runtime : Runtime :=
  {| inherited := sample_inherited;
     prototype_of := fun _ => VUndef;
     invoke := sample_invoke;
     array_length_of := sample_array_length_of |}.

(** ** Induction on nested JSON texts *)

Section JsonInduction.
Variable P : json -> Prop.
Hypothesis HNull : P JNull.
Hypothesis HBool : forall b, P (JBool b).
Hypothesis HNum : forall z, P (JNum z).
Hypothesis HStr : forall s, P (JStr s).
Hypothesis HArr : forall js, Forall P js -> P (JArr js).
Hypothesis HObj : forall kvs, Forall (fun kx => P (snd kx)) kvs -> P (JObj kvs).

Fixpoint json_nested_ind (j : json) : P j :=
  match j with
  | JNull => HNull
  | JBool b => HBool b
  | JNum z => HNum z
  | JStr s => HStr s
  | JArr js =>
      HArr js
        ((fix go (js : list json) : Forall P js :=
            match js with
            | [] => Forall_nil_2 P
            | j :: r => Forall_cons_2 P j r (json_nested_ind j) (go r)
            end) js)
  | JObj kvs =>
      HObj kvs
        ((fix go (kvs : list (string * json)) : Forall (fun kx => P (snd kx)) kvs :=
            match kvs with
            | [] => Forall_nil_2 _
            | kx :: r => Forall_cons_2 _ kx r (json_nested_ind (snd kx)) (go r)
            end) kvs)
  end.
End JsonInduction.

(** ** Field-path filtering as the specification words it *)

(** An error belongs to a field path when its field equals the path or
    starts with the path followed by a dot or an opening bracket. *)
Definition spec_matches (fieldPath : string) (e : ValidationError) : bool :=
  String.eqb (field e) fieldPath
  || String.prefix (fieldPath ++ ".") (field e)
  || String.prefix (fieldPath ++ "[") (field e).

(** No errors give the empty sequence, an omitted path the full sequence,
    a supplied path the matching subsequence. *)
Definition spec_findErrors (r : checked) (fieldPath : option string)
  : list ValidationError :=
  match r with
  | Valid => []
  | Invalid all =>
      match fieldPath with
      | None => all
      | Some p => List.filter (spec_matches p) all
      end
  end.

(** The same, with the empty path standing for the omitted one. *)
Definition spec_findErrors_nonempty (r : checked) (fieldPath : option string)
  : list ValidationError :=
  match fieldPath with
  | Some "" => spec_findErrors r None
  | _ => spec_findErrors r fieldPath
  end.

(** ** Sample data *)

Definition err_name : ValidationError :=
  {| field := "name"; message := "too short" |}.
Definition err_child0 : ValidationError :=
  {| field := "children[0].age"; message := "not a number" |}.
Definition err_child1 : ValidationError :=
  {| field := "children[1].age"; message := "not a number" |}.

Definition three_errors : heap -> value -> checked :=
  fun _ _ => Invalid [err_name; err_child0; err_child1].

Definition empty_world : world :=
  {| objects := []; proxies := []; wrappers := []; counter := 0;
     resetId := 0; refreshId := 0 |}.

Definition blank_memo : memo :=
  {| seen_original := VUndef; originalStr := None; seen_resetId := 0;
     model := VUndef; seen_refreshId := 0; proxy := 0 |}.

(** ** What building a text back into the heap achieves *)

Definition max_depth (js : list json) : nat :=
  fold_right (fun x m => Nat.max (depth x) m) 0%nat js.

Definition max_depth_members (kvs : list (string * json)) : nat :=
  fold_right (fun kx m => Nat.max (depth (snd kx)) m) 0%nat kvs.

(** Building [j] only appends objects, at least one per nesting level, and
    the value built serializes to [j] again. *)
Definition builds_back (j : json) : Prop :=
  forall h : heap,
    exists ext : heap,
      fst (build j h) = h ++ ext
      /\ (depth j <= length ext)%nat
      /\ (json_wf j = true ->
          ser (S (depth j)) (h ++ ext) (snd (build j h)) = Returns (Some j)).

(** ** Well-formed heaps *)

(** Every ordinary object enumerates its own keys as JavaScript does. *)
Definition obj_wf (o : obj) : bool :=
  match o with
  | ORec fs => canonical fs
  | OArr _ _ => true
  end.

Definition heap_wf (h : heap) : bool := forallb obj_wf h.

Definition text_wf (t : option json) : bool :=
  match t with
  | Some j => json_wf j
  | None => true
  end.

(** Two caller objects with the same content, their keys inserted in a
    different order. *)
Definition original_ab : obj := ORec [("a", VNum 1); ("b", VNum 2)].
Definition original_ba : obj := ORec [("b", VNum 2); ("a", VNum 1)].

Definition caller_world : world :=
  {| objects := [original_ab; original_ba]; proxies := []; wrappers := [];
     counter := 0; resetId := 0; refreshId := 0 |}.

(** The hook mounted on the first object and rendered again with the
    second, and [isDirty()] of that render. *)
Definition swap_scenario : outcome (world * memo) :=
  let? wm := mount (VRef 0) caller_world in
  render (VRef 1) (fst wm) (snd wm).

(** The state a scenario ends in. *)
Definition final {A} (dflt : A) (o : outcome A) : A :=
  match o with
  | Returns a => a
  | Throws => dflt
  end.

Definition mounted_ab : world * memo :=
  final (empty_world, blank_memo) (mount (VRef 0) caller_world).

Definition swapped_ba : world * memo :=
  final (empty_world, blank_memo) swap_scenario.

(** The caller replaces its object by a second one of identical content. *)
Definition twin_world : world :=
  {| objects := [original_ab; original_ab]; proxies := []; wrappers := [];
     counter := 0; resetId := 0; refreshId := 0 |}.

Definition mounted_twin : world * memo :=
  final (empty_world, blank_memo) (mount (VRef 0) twin_world).

Definition rendered_twin : world * memo :=
  final (empty_world, blank_memo)
    (render (VRef 1) (fst mounted_twin) (snd mounted_twin)).

(** The serialization of an object or an array. *)
Definition is_object_text (t : option json) : bool :=
  match t with
  | Some (JObj _) | Some (JArr _) => true
  | _ => false
  end.

(** A sequence of writes through proxies, each [proxy[prop] = item]. *)
Definition apply_writes `{Runtime} (ops : list (pid * string * value)) (w : world)
  : world :=
  fold_left (fun w op => fst (proxy_set (fst (fst op)) (snd (fst op)) (snd op) w)) ops w.

(** The snapshot of [{a: 1, b: 2}] after [model.a = 5]. *)
Definition edited_ab : world :=
  apply_writes (H := sample_runtime) [(0%nat, "a", VNum 5)] (fst mounted_ab).

(** The root proxy of the snapshot of [{a: 1, b: 2}]. *)
Definition root_proxy_ab : proxy_rec := {| target := 2; getMap := ∅ |}.


(** ** Proxy caches *)

(** Every cached child proxy is a proxy that exists. *)
Definition caches_valid (w : world) : Prop :=
  forall (p : pid) (pr : proxy_rec) (k : string) (q : pid),
    proxies w !! p = Some pr -> getMap pr !! k = Some q ->
    (q < length (proxies w))%nat.

(** The hook on [{list: [{x: 1}]}]: the snapshot has the element at 3, the
    array at 4 and the root at 5; proxy 0 is the root proxy. *)
Definition list_world : world :=
  {| objects := [ORec [("x", VNum 1)]; OArr [VRef 0] []; ORec [("list", VRef 1)]];
     proxies := []; wrappers := []; counter := 0; resetId := 0; refreshId := 0 |}.

Definition mounted_list : world * memo :=
  final (empty_world, blank_memo) (mount (VRef 2) list_world).

(** [model.list], then [model.list[0]] *)
Definition read_list : world * outcome handle :=
  proxy_get (H := sample_runtime) 0 "list" (fst mounted_list).
Definition read_item : world * outcome handle :=
  proxy_get (H := sample_runtime) 1 "0" (fst read_list).


(** [model.list.pop(); model.list.push(Array.prototype.push); model.list[0]] *)
Definition read_pop : world * outcome handle :=
  proxy_get (H := sample_runtime) 1 "pop" (fst read_item).
Definition call_pop : world * outcome value :=
  call_wrapper (H := sample_runtime) 0 [] (fst read_pop).
Definition read_push : world * outcome handle :=
  proxy_get (H := sample_runtime) 1 "push" (fst call_pop).
Definition call_push_function : world * outcome value :=
  call_wrapper (H := sample_runtime) 1 [VFun m_push] (fst read_push).
Definition read_function_item : world * outcome handle :=
  proxy_get (H := sample_runtime) 1 "0" (fst call_push_function).



(** ** The invariant of a mounted hook *)

(** What every state of a mounted hook satisfies: the heap is well formed,
    [originalStr] is the well-formed text of an object, the snapshot and
    the root proxy exist, the trigger seen last was drawn from the counter,
    and every cached child proxy exists. *)
Definition hook_inv (w : world) (m : memo) : Prop :=
  heap_wf (objects w) = true
  /\ text_wf (originalStr m) = true
  /\ is_object_text (originalStr m) = true
  /\ (exists l0, model m = VRef l0 /\ (l0 < length (objects w))%nat)
  /\ (seen_resetId m <= counter w)%nat
  /\ (resetId w <= counter w)%nat
  /\ (proxy m < length (proxies w))%nat
  /\ caches_valid w.

(** ** The states a mounted hook passes through *)

(** Methods that leave a well-formed heap well formed and delete no
    object. *)
Class LawfulRuntime `{Runtime} := {
  invoke_wf : forall m l args h,
    heap_wf h = true -> heap_wf (fst (invoke m l args h)) = true;
  invoke_grows : forall m l args h,
    (length h <= length (fst (invoke m l args h)))%nat
}.

(** The hook is mounted in a well-formed heap; then it is rendered again,
    read and written through proxies, its methods are called, and
    [reset] and [refresh] run. *)
Inductive reachable `{Runtime} : world -> memo -> Prop :=
| reach_mount original w w' m :
    heap_wf (objects w) = true -> caches_valid w ->
    mount original w = Returns (w', m) -> reachable w' m
| reach_render original w w' m m' :
    reachable w m -> render original w m = Returns (w', m') -> reachable w' m'
| reach_get p prop w m :
    reachable w m -> reachable (fst (proxy_get p prop w)) m
| reach_set p prop item w m :
    reachable w m -> reachable (fst (proxy_set p prop item w)) m
| reach_call f args w m :
    reachable w m -> reachable (fst (call_wrapper f args w)) m
| reach_reset w m :
    reachable w m -> reachable (reset w) m
| reach_refresh w m :
    reachable w m -> reachable (refresh w) m.

(** ** Further sample data *)

(** Every trigger id in use was drawn from the counter. *)
Definition ids_bounded (w : world) (m : memo) : Prop :=
  (resetId w <= counter w)%nat
  /\ (refreshId w <= counter w)%nat
  /\ (seen_resetId m <= counter w)%nat
  /\ (seen_refreshId m <= counter w)%nat.


(** [null], a boolean, a number or a string. *)
Definition is_scalar (v : value) : bool :=
  match v with
  | VNull | VBool _ | VNum _ | VStr _ => true
  | _ => false
  end.

(** ** Objects that refer to new objects only *)

(** A value that is no reference to an object below [k]. *)
Definition value_above (k : nat) (v : value) : bool :=
  match v with
  | VRef l => (k <=? l)%nat
  | _ => true
  end.

(** An object whose serialized parts (own properties of an ordinary
    object, elements of an array) are such values. *)
Definition obj_above (k : nat) (o : obj) : bool :=
  match o with
  | ORec fs => forallb (fun kv => value_above k (snd kv)) fs
  | OArr es _ => forallb (value_above k) es
  end.

(** What [build] adds to the heap refers to what it adds only. *)
Definition builds_above (j : json) : Prop :=
  forall (h ext : heap),
    fst (build j h) = h ++ ext ->
    value_above (length h) (snd (build j h)) = true
    /\ forallb (obj_above (length h)) ext = true.

(** The JSON text of a scalar. *)
Definition json_of_scalar (v : value) : json :=
  match v with
  | VBool b => JBool b
  | VNum z => JNum z
  | VStr s => JStr s
  | _ => JNull
  end.

(** An ordinary object whose own properties all hold scalars. *)
Definition flat (fs : list (string * value)) : bool :=
  forallb (fun kv => is_scalar (snd kv)) fs.

(** ** The serialization the hook takes of the Original *)

(** [text] is what [JSON.stringify(original || {})] returns in the heap
    [h]: the serialization of a truthy Original, the text of the empty
    object for a falsy one. *)
Definition serialization_taken (original : value) (h : heap) (text : option json) : Prop :=
  if truthy original then JSON_stringify h original = Returns text
  else text = Some (JObj []).

(** ** Keys with a meaning of their own *)




(** ** The Original edited in place *)

(** The caller assigns to a property of an object of its own, [o[k] = v],
    not through a proxy. *)
Definition caller_assign `{Runtime} (l : loc) (k : string) (v : value) (w : world)
  : world :=
  match set_prop (objects w) l k v with
  | Returns h => with_objects h w
  | Throws => w
  end.

(** The hook is mounted on [{a: 1, b: 2}]; the caller then sets
    [original.a = 9] on that object, calls [reset()], and the hook renders
    with the same Original. *)
Definition edited_in_place : world :=
  caller_assign (H := sample_runtime) 0 "a" (VNum 9) (fst mounted_ab).

Definition reset_in_place : world * memo :=
  final (empty_world, blank_memo)
    (render (VRef 0) (reset edited_in_place) (snd mounted_ab)).



(** * Properties *)

(** ** The definitions on small inputs *)

Example array_index_examples :
  array_index "0" = Some 0%nat /\ array_index "10" = Some 10%nat
  /\ array_index "01" = None /\ array_index "1a" = None
  /\ array_index "" = None /\ array_index "length" = None.
Proof. repeat split. Qed.

(** [o = {b: 1}; o.a = 2; o[1] = 3; o.b = 4] enumerates 1, b, a. *)
Example put_field_order :
  put_field "b" (VNum 4)
    (put_field "1" (VNum 3) (put_field "a" (VNum 2) [("b", VNum 1)]))
  = [("1", VNum 3); ("b", VNum 4); ("a", VNum 2)].
Proof. reflexivity. Qed.

(** [JSON.stringify({a: undefined, b: [undefined, f], c: null})] is
    [{"b":[null,null],"c":null}]; a function alone serializes to
    [undefined]; a circular object throws. *)
Example stringify_examples :
  JSON_stringify
    [OArr [VUndef; VFun m_push] []; ORec [("a", VUndef); ("b", VRef 0); ("c", VNull)]]
    (VRef 1)
  = Returns (Some (JObj [("b", JArr [JNull; JNull]); ("c", JNull)]))
  /\ JSON_stringify [] (VFun m_push) = Returns None
  /\ JSON_stringify [ORec [("self", VRef 0)]] (VRef 0) = Throws.
Proof. repeat split. Qed.

(** [JSON.parse('{"b":{"x":1},"a":[true]}')] into the empty heap. *)
Example parse_example :
  JSON_parse (Some (JObj [("b", JObj [("x", JNum 1)]); ("a", JArr [JBool true])])) []
  = Returns ([ORec [("x", VNum 1)]; OArr [VBool true] [];
              ORec [("b", VRef 0); ("a", VRef 1)]], VRef 2).
Proof. reflexivity. Qed.

(** ** Equality of JSON texts *)

Lemma json_eqb_eq (a b : json) : json_eqb a b = true <-> a = b.
Proof.
  revert b. induction a using json_nested_ind; intros c; destruct c; simpl;
    try (split; [discriminate | intros E; discriminate E]);
    try (split; reflexivity).
  - rewrite Bool.eqb_true_iff. split; congruence.
  - rewrite Z.eqb_eq. split; congruence.
  - rewrite String.eqb_eq. split; congruence.
  - revert items. induction H as [|x xs Hx _ IH]; intros [|y ys];
      try (split; [discriminate | intros E; discriminate E]);
      try (split; reflexivity).
    rewrite andb_true_iff, Hx, (IH ys). split.
    + intros [-> E]. congruence.
    + intros E. injection E as -> ->. auto.
  - revert members. induction H as [|[k x] xs Hx _ IH]; intros [|[k' y] ys];
      try (split; [discriminate | intros E; discriminate E]);
      try (split; reflexivity).
    simpl in Hx.
    rewrite !andb_true_iff, String.eqb_eq, Hx, (IH ys). split.
    + intros [[-> ->] E]. congruence.
    + intros E. injection E as -> -> ->. auto.
Qed.

Lemma text_eqb_eq (a b : option json) : text_eqb a b = true <-> a = b.
Proof.
  destruct a, b; simpl; try (split; congruence).
  rewrite json_eqb_eq. split; congruence.
Qed.

Lemma text_eqb_refl (a : option json) : text_eqb a a = true.
Proof. by apply text_eqb_eq. Qed.

(** ** findErrors *)

Lemma matches_spec_matches (p : string) (e : ValidationError) :
  p <> "" -> matches p e = spec_matches p e.
Proof.
  intros Hp. unfold matches, spec_matches.
  destruct (String.eqb (field e) "") eqn:E; simpl; [|reflexivity].
  apply String.eqb_eq in E. rewrite E.
  destruct (String.eqb "" p) eqn:E'.
  - apply String.eqb_eq in E'. congruence.
  - destruct p; [congruence|]. reflexivity.
Qed.

Lemma filter_ext_bool {A} (f g : A -> bool) (l : list A) :
  (forall x, f x = g x) -> List.filter f l = List.filter g l.
Proof. intros E. induction l as [|x l IH]; simpl; [done|]. by rewrite E, IH. Qed.

(** C3, as stated, fails for the empty field path: [findErrors("")] returns
    every error, not the errors whose field is empty or starts with a dot
    or a bracket. *)
Lemma findErrors_empty_path_returns_all :
  findErrors three_errors (Some "") empty_world blank_memo
    = [err_name; err_child0; err_child1]
  /\ spec_findErrors (three_errors [] VUndef) (Some "") = []
  /\ findErrors three_errors (Some "") empty_world blank_memo
     <> spec_findErrors (three_errors (objects empty_world) (model blank_memo)) (Some "").
Proof. repeat split. discriminate. Qed.

(** C3, amended: [findErrors] returns the empty sequence when the validator
    reports no errors, the full ordered sequence when the field path is
    omitted or empty, and for a non-empty field path exactly the
    subsequence of errors whose field equals the path or starts with the
    path followed by "." or "[".  On the fields name, children[0].age and
    children[1].age this gives the two children entries for 'children', the
    name entry for 'name' and nothing for 'missing'. *)
Theorem findErrors_field_path :
  (forall (validator : heap -> value -> checked) (fieldPath : option string)
          (w : world) (m : memo),
      findErrors validator fieldPath w m
      = spec_findErrors_nonempty (validator (objects w) (model m)) fieldPath)
  /\ (forall w m, findErrors three_errors (Some "children") w m = [err_child0; err_child1])
  /\ (forall w m, findErrors three_errors (Some "name") w m = [err_name])
  /\ (forall w m, findErrors three_errors None w m = [err_name; err_child0; err_child1])
  /\ (forall w m, findErrors three_errors (Some "missing") w m = [])
  /\ (forall w m p, findErrors (fun _ _ => Valid) p w m = []).
Proof.
  split; [|repeat split].
  intros validator fieldPath w m. unfold findErrors, spec_findErrors_nonempty.
  destruct fieldPath as [p|]; [|reflexivity].
  destruct (String.eqb p "") eqn:E.
  - apply String.eqb_eq in E. subst p. reflexivity.
  - assert (Hp : p <> "") by (intros ->; discriminate E).
    destruct p as [|c p]; [done|]. simpl.
    destruct (validator _ _) as [|all]; [reflexivity|].
    apply filter_ext_bool. intros e. by apply matches_spec_matches.
Qed.

(** ** JSON.stringify: more depth and a larger heap keep a result *)

Lemma ser_fields_ext (f g : value -> outcome (option json)) fs ms :
  (forall v r, In v (map snd fs) -> f v = Returns r -> g v = Returns r) ->
  ser_fields f fs = Returns ms -> ser_fields g fs = Returns ms.
Proof.
  revert ms. induction fs as [|[k v] fs IH]; intros ms Hfg; simpl; [done|].
  destruct (f v) as [oj|] eqn:Ef; simpl; [|done].
  rewrite (Hfg v oj) by (simpl; auto). simpl.
  destruct (ser_fields f fs) as [js|] eqn:Efs; simpl; [|done].
  rewrite (IH js); [done| |done].
  intros v' r Hin. apply Hfg. simpl. auto.
Qed.

Lemma ser_elems_ext (f g : value -> outcome (option json)) es js :
  (forall v r, In v es -> f v = Returns r -> g v = Returns r) ->
  ser_elems f es = Returns js -> ser_elems g es = Returns js.
Proof.
  revert js. induction es as [|v es IH]; intros js Hfg; simpl; [done|].
  destruct (f v) as [oj|] eqn:Ef; simpl; [|done].
  rewrite (Hfg v oj) by (simpl; auto). simpl.
  destruct (ser_elems f es) as [js'|] eqn:Efs; simpl; [|done].
  rewrite (IH js'); [done| |done].
  intros v' r Hin. apply Hfg. simpl. auto.
Qed.

Lemma ser_extend (n : nat) : forall (n' : nat) (h ext : heap) (v : value) r,
  ser n h v = Returns r -> n <= n' -> ser n' (h ++ ext) v = Returns r.
Proof.
  induction n as [|n IH]; intros n' h ext v r Hs Hle; [done|].
  destruct n' as [|n']; [lia|].
  destruct v; simpl in *; try done.
  destruct (h !! l) as [o|] eqn:El; [|done].
  rewrite (lookup_app_l_Some _ _ _ _ El).
  destruct o as [fs|es named].
  - destruct (ser_fields (ser n h) fs) as [ms|] eqn:E; [|done].
    rewrite (ser_fields_ext _ (ser n' (h ++ ext)) _ _ (fun v r _ Hv => IH n' h ext v r Hv ltac:(lia)) E).
    done.
  - destruct (ser_elems (ser n h) es) as [js|] eqn:E; [|done].
    rewrite (ser_elems_ext _ (ser n' (h ++ ext)) _ _ (fun v r _ Hv => IH n' h ext v r Hv ltac:(lia)) E).
    done.
Qed.

Lemma ser_mono n n' h v r :
  ser n h v = Returns r -> n <= n' -> ser n' h v = Returns r.
Proof.
  intros Hs Hle. rewrite <- (app_nil_r h). by apply ser_extend with n.
Qed.

Lemma ser_S (n : nat) (h : heap) (v : value) :
  ser (S n) h v =
  match v with
  | VUndef | VFun _ => Returns None
  | VNull => Returns (Some JNull)
  | VBool b => Returns (Some (JBool b))
  | VNum z => Returns (Some (JNum z))
  | VStr s => Returns (Some (JStr s))
  | VRef l =>
      match h !! l with
      | None => Throws
      | Some (ORec fs) =>
          let? ms := ser_fields (ser n h) fs in Returns (Some (JObj ms))
      | Some (OArr es _) =>
          let? js := ser_elems (ser n h) es in Returns (Some (JArr js))
      end
  end.
Proof. reflexivity. Qed.

Arguments ser : simpl never.

(** ** JSON.parse after JSON.stringify *)

Lemma put_field_snoc {A} (k : string) (v : A) (acc : list (string * A)) :
  ordered_keys (map fst acc ++ [k]) = true ->
  put_field k v acc = acc ++ [(k, v)].
Proof.
  induction acc as [|[k' v'] acc IH]; simpl; [done|].
  rewrite andb_true_iff, forallb_app. simpl.
  rewrite !andb_true_iff. intros [[_ [[Hne Hnb] _]] Hrest].
  apply negb_true_iff in Hne, Hnb. rewrite Hne, Hnb.
  by rewrite IH.
Qed.

Lemma ordered_keys_app_l (a b : list string) :
  ordered_keys (a ++ b) = true -> ordered_keys a = true.
Proof.
  induction a as [|k a IH]; simpl; [done|].
  rewrite !andb_true_iff, forallb_app, andb_true_iff.
  intros [[Ha _] Hr]. auto.
Qed.

Lemma build_items_back (js : list json) :
  Forall builds_back js ->
  forall h : heap,
    exists ext : heap,
      fst (build_items build js h) = h ++ ext
      /\ (max_depth js <= length ext)%nat
      /\ (forallb json_wf js = true ->
          ser_elems (ser (S (max_depth js)) (h ++ ext))
            (snd (build_items build js h)) = Returns js).
Proof.
  induction 1 as [|j js Hj _ IH]; intros h.
  - exists []. simpl. rewrite app_nil_r. auto with lia.
  - simpl. destruct (Hj h) as (e1 & Eh1 & Hd1 & Hs1).
    destruct (build j h) as [h1 v] eqn:Ej. simpl in Eh1, Hs1. subst h1.
    destruct (IH (h ++ e1)) as (e2 & Eh2 & Hd2 & Hs2).
    destruct (build_items build js (h ++ e1)) as [h2 vs] eqn:Ejs.
    simpl in Eh2, Hs2. subst h2. simpl.
    exists (e1 ++ e2). rewrite app_assoc, length_app.
    split; [done|]. split; [lia|].
    rewrite andb_true_iff. intros [Wj Wjs].
    rewrite (ser_extend _ _ _ e2 _ _ (Hs1 Wj)) by lia. simpl.
    rewrite (ser_elems_ext _ (ser (S (Nat.max (depth j) (max_depth js))) ((h ++ e1) ++ e2))
               _ _ (fun v r _ Hv => ser_mono (S (max_depth js)) (S (Nat.max (depth j) (max_depth js))) _ v r Hv ltac:(lia)) (Hs2 Wjs)).
    done.
Qed.

Lemma build_members_back (kvs : list (string * json)) :
  Forall (fun kx => builds_back (snd kx)) kvs ->
  forall (h : heap) (acc : list (string * value)),
    exists ext : heap,
      fst (build_members build kvs h acc) = h ++ ext
      /\ (max_depth_members kvs <= length ext)%nat
      /\ (ordered_keys (map fst acc ++ map fst kvs) = true ->
          forallb (fun kx => json_wf (snd kx)) kvs = true ->
          exists fs,
            snd (build_members build kvs h acc) = acc ++ fs
            /\ map fst fs = map fst kvs
            /\ ser_fields (ser (S (max_depth_members kvs)) (h ++ ext)) fs
               = Returns kvs).
Proof.
  induction 1 as [|[k j] kvs Hj _ IH]; intros h acc.
  - exists []. simpl. rewrite !app_nil_r. repeat split; [lia|].
    intros _ _. exists []. by rewrite app_nil_r.
  - simpl in Hj |- *. destruct (Hj h) as (e1 & Eh1 & Hd1 & Hs1).
    destruct (build j h) as [h1 v] eqn:Ej. simpl in Eh1, Hs1. subst h1.
    destruct (IH (h ++ e1) (put_field k v acc)) as (e2 & Eh2 & Hd2 & Hs2).
    exists (e1 ++ e2). rewrite app_assoc, length_app.
    split; [done|]. split; [lia|].
    intros Hord Hwf. apply andb_true_iff in Hwf as [Wj Wkvs].
    assert (Hput : put_field k v acc = acc ++ [(k, v)]).
    { apply put_field_snoc. apply ordered_keys_app_l with (map fst kvs).
      by rewrite <- app_assoc. }
    rewrite Hput in Hs2 |- *.
    destruct Hs2 as (fs & Efs & Kfs & Sfs); [|done|].
    { rewrite map_app. simpl. by rewrite <- app_assoc. }
    exists ((k, v) :: fs). split; [|split].
    + rewrite Efs. by rewrite <- app_assoc.
    + simpl. by rewrite Kfs.
    + simpl. rewrite (ser_extend _ _ _ e2 _ _ (Hs1 Wj)) by lia. simpl.
      rewrite (ser_fields_ext _ (ser (S (Nat.max (depth j) (max_depth_members kvs))) ((h ++ e1) ++ e2))
                 _ _ (fun v r _ Hv => ser_mono (S (max_depth_members kvs)) (S (Nat.max (depth j) (max_depth_members kvs))) _ v r Hv ltac:(lia)) Sfs).
      done.
Qed.

Lemma build_back (j : json) : builds_back j.
Proof.
  induction j as [| | | |js IH|kvs IH] using json_nested_ind; intros h;
    try solve [exists []; simpl; rewrite app_nil_r; repeat split; auto with lia].
  - destruct (build_items_back js IH h) as (e & Eh & Hd & Hs).
    simpl. fold (max_depth js).
    destruct (build_items build js h) as [h1 vs]. simpl in Eh, Hs. subst h1.
    simpl. exists (e ++ [OArr vs []]).
    rewrite app_assoc, length_app. simpl. split; [done|]. split; [lia|].
    intros Wf. rewrite ser_S.
    rewrite lookup_app_r, Nat.sub_diag by (rewrite ?length_app; lia). simpl.
    rewrite (ser_elems_ext _ (ser (S (max_depth js)) ((h ++ e) ++ [OArr vs []]))
               _ _ (fun v r _ Hv => ser_extend (S (max_depth js)) (S (max_depth js)) _ [OArr vs []] v r Hv ltac:(lia)) (Hs Wf)).
    done.
  - destruct (build_members_back kvs IH h []) as (e & Eh & Hd & Hs).
    simpl. fold (max_depth_members kvs).
    destruct (build_members build kvs h []) as [h1 fs]. simpl in Eh, Hs. subst h1.
    simpl. exists (e ++ [ORec fs]).
    rewrite app_assoc, length_app. simpl. split; [done|]. split; [lia|].
    rewrite andb_true_iff. intros [Wc Wf].
    destruct (Hs Wc Wf) as (fs' & -> & _ & Sfs).
    rewrite ser_S.
    rewrite lookup_app_r, Nat.sub_diag by (rewrite ?length_app; lia). simpl.
    rewrite (ser_fields_ext _ (ser (S (max_depth_members kvs)) ((h ++ e) ++ [ORec fs']))
               _ _ (fun v r _ Hv => ser_extend (S (max_depth_members kvs)) (S (max_depth_members kvs)) _ [ORec fs'] v r Hv ltac:(lia)) Sfs).
    done.
Qed.

(** [JSON.stringify(JSON.parse(text))] gives [text] back, and the parsed
    value is made of new objects only. *)
Lemma stringify_build (j : json) (h : heap) :
  json_wf j = true ->
  JSON_stringify (fst (build j h)) (snd (build j h)) = Returns (Some j).
Proof.
  intros Wf. destruct (build_back j h) as (e & Eh & Hd & Hs).
  unfold JSON_stringify. rewrite Eh.
  rewrite <- (app_nil_r (h ++ e)) at 2.
  apply ser_extend with (S (depth j)); [by apply Hs|].
  rewrite length_app. lia.
Qed.

Lemma build_grows (j : json) (h : heap) :
  exists ext, fst (build j h) = h ++ ext.
Proof. destruct (build_back j h) as (e & Eh & _). eauto. Qed.

Lemma build_ref_fresh (j : json) (h : heap) (l : loc) :
  snd (build j h) = VRef l ->
  (length h <= l)%nat /\ (l < length (fst (build j h)))%nat.
Proof.
  destruct j; simpl; try discriminate.
  - destruct (build_grows (JArr items) h) as (e & Ee). simpl in Ee.
    destruct (build_items build items h) as [h1 vs] eqn:E. simpl in *.
    intros [= <-].
    destruct (build_items_back items (proj2 (Forall_forall _ _) (fun x _ => build_back x)) h)
      as (e' & Ee' & _).
    rewrite E in Ee'. simpl in Ee'. subst h1. rewrite !length_app. simpl. lia.
  - destruct (build_members build members h []) as [h1 fs] eqn:E. simpl.
    intros [= <-].
    destruct (build_members_back members
                (proj2 (Forall_forall _ _) (fun x _ => build_back (snd x))) h [])
      as (e' & Ee' & _).
    rewrite E in Ee'. simpl in Ee'. subst h1. rewrite !length_app. simpl. lia.
Qed.

(** ** JSON.stringify emits well-formed texts *)

Lemma forallb_sublist {A} (f : A -> bool) (l1 l2 : list A) :
  sublist l1 l2 -> forallb f l2 = true -> forallb f l1 = true.
Proof.
  induction 1; simpl; rewrite ?andb_true_iff; intuition.
Qed.

Lemma ordered_keys_sublist (ks' ks : list string) :
  sublist ks' ks -> ordered_keys ks = true -> ordered_keys ks' = true.
Proof.
  induction 1 as [|k l1 l2 Hs IH|k l1 l2 Hs IH]; simpl; [done| |];
    rewrite ?andb_true_iff; intros [Hf Ho].
  - split; [|auto]. by apply forallb_sublist with l2.
  - auto.
Qed.

Lemma ser_fields_members (f : value -> outcome (option json)) fs ms :
  ser_fields f fs = Returns ms ->
  sublist (map fst ms) (map fst fs)
  /\ Forall (fun kx => exists v, In v (map snd fs) /\ f v = Returns (Some (snd kx))) ms.
Proof.
  revert ms. induction fs as [|[k v] fs IH]; simpl; intros ms.
  - intros [= <-]. split; constructor.
  - destruct (f v) as [oj|] eqn:Ef; simpl; [|done].
    destruct (ser_fields f fs) as [js|]; simpl; [|done].
    destruct (IH js eq_refl) as [Hsub Hall].
    assert (Hall' : Forall (fun kx => exists v0, (v = v0 \/ In v0 (map snd fs))
                                 /\ f v0 = Returns (Some (snd kx))) js).
    { eapply Forall_impl; [exact Hall|]. intros kx (v0 & Hin & Hv). eauto. }
    destruct oj as [j|]; intros [= <-]; simpl.
    + split; [by constructor|]. constructor; [|done]. simpl. eauto.
    + split; [by constructor|done].
Qed.

Lemma ser_elems_items (f : value -> outcome (option json)) es js :
  ser_elems f es = Returns js ->
  Forall (fun j => j = JNull \/ exists v, In v es /\ f v = Returns (Some j)) js.
Proof.
  revert js. induction es as [|v es IH]; simpl; intros js.
  - intros [= <-]. constructor.
  - destruct (f v) as [oj|] eqn:Ef; simpl; [|done].
    destruct (ser_elems f es) as [js'|]; simpl; [|done].
    intros [= <-]. constructor.
    + destruct oj; eauto.
    + eapply Forall_impl; [exact (IH js' eq_refl)|].
      intros j [->|(v0 & Hin & Hv)]; eauto.
Qed.

Lemma ser_wf (n : nat) : forall (h : heap) (v : value) (j : json),
  heap_wf h = true -> ser n h v = Returns (Some j) -> json_wf j = true.
Proof.
  induction n as [|n IH]; intros h v j Hh; [done|].
  rewrite ser_S. destruct v; try (intros [= <-]; reflexivity); try done.
  destruct (h !! l) as [[fs|es named]|] eqn:El; [| |done].
  - destruct (ser_fields (ser n h) fs) as [ms|] eqn:E; simpl; [|done].
    intros [= <-]. simpl. apply ser_fields_members in E as [Hsub Hall].
    apply andb_true_iff. split.
    + apply ordered_keys_sublist with (map fst fs); [done|].
      unfold heap_wf in Hh. rewrite forallb_forall in Hh.
      apply (Hh (ORec fs)). apply list_elem_of_In. by eapply list_elem_of_lookup_2.
    + apply forallb_forall. intros kx Hin.
      rewrite Forall_forall in Hall. apply list_elem_of_In in Hin.
      destruct (Hall kx Hin) as (v & _ & Hv). by eapply IH.
  - destruct (ser_elems (ser n h) es) as [js|] eqn:E; simpl; [|done].
    intros [= <-]. simpl. apply ser_elems_items in E.
    apply forallb_forall. intros x Hin.
    rewrite Forall_forall in E. apply list_elem_of_In in Hin.
    destruct (E x Hin) as [->|(v & _ & Hv)]; [done|]. by eapply IH.
Qed.

Lemma stringify_wf (h : heap) (v : value) (t : option json) :
  heap_wf h = true -> JSON_stringify h v = Returns t -> text_wf t = true.
Proof.
  intros Hh Hs. destruct t as [j|]; [|done]. by eapply ser_wf.
Qed.

(** ** The hook: deriving the snapshot *)

Section HookFacts.

Lemma strict_eq_true (a b : value) : strict_eq a b = true <-> a = b.
Proof. unfold strict_eq. by rewrite bool_decide_eq_true. Qed.

Lemma strict_eq_false (a b : value) : strict_eq a b = false <-> a <> b.
Proof. unfold strict_eq. by rewrite bool_decide_eq_false. Qed.

Lemma compute_model_clean (text : option json) (w : world) wm :
  text_wf text = true ->
  compute_model text w = Returns wm ->
  JSON_stringify (objects (fst wm)) (snd wm) = Returns text
  /\ proxies (fst wm) = proxies w
  /\ resetId (fst wm) = resetId w /\ refreshId (fst wm) = refreshId w
  /\ counter (fst wm) = counter w
  /\ (exists j, text = Some j /\ wm = (with_objects (fst (build j (objects w))) w,
                                      snd (build j (objects w)))).
Proof.
  intros Wf. unfold compute_model. destruct text as [j|]; simpl; [|done].
  intros [= <-]. simpl. split; [by apply stringify_build|]. eauto 10.
Qed.

Lemma compute_originalStr_wf (original : value) (w : world) ws :
  heap_wf (objects w) = true ->
  compute_originalStr original w = Returns ws ->
  text_wf (snd ws) = true
  /\ (exists ext, objects (fst ws) = objects w ++ ext)
  /\ heap_wf (objects (fst ws)) = true
  /\ proxies (fst ws) = proxies w
  /\ resetId (fst ws) = resetId w /\ refreshId (fst ws) = refreshId w
  /\ counter (fst ws) = counter w.
Proof.
  intros Hh. unfold compute_originalStr.
  destruct (truthy original).
  - destruct (JSON_stringify (objects w) original) as [t|] eqn:E; simpl; [|done].
    intros [= <-]. simpl. split; [by eapply stringify_wf|].
    split; [exists []; by rewrite app_nil_r|]. auto.
  - simpl.
    destruct (JSON_stringify (objects w ++ [ORec []]) (VRef (length (objects w))))
      as [t|] eqn:E; simpl; [|done].
    assert (Hh' : heap_wf (objects w ++ [ORec []]) = true).
    { unfold heap_wf in *. rewrite forallb_app. simpl. by rewrite Hh. }
    intros [= <-]. simpl. split; [by eapply stringify_wf|]. eauto 10.
Qed.

Lemma createProxy_keeps (v : value) (w : world) wp :
  createProxy v w = Returns wp ->
  objects (fst wp) = objects w
  /\ (exists l, v = VRef l)
  /\ snd wp = length (proxies w)
  /\ proxies (fst wp) = proxies w ++ [{| target := match v with VRef l => l | _ => 0%nat end;
                                          getMap := ∅ |}]
  /\ resetId (fst wp) = resetId w /\ refreshId (fst wp) = refreshId w
  /\ counter (fst wp) = counter w.
Proof.
  destruct v; simpl; try done. intros [= <-]. simpl. eauto 10.
Qed.

End HookFacts.

(** ** isDirty *)

(** [isDirty()] returns true exactly when the serialization of the
    current Model Snapshot differs from [originalStr], and false exactly
    when the two are the same text. *)
Lemma isDirty_differs (w : world) (m : memo) :
  (isDirty w m = Returns true <->
     exists text, JSON_stringify (objects w) (model m) = Returns text
                  /\ text <> originalStr m)
  /\ (isDirty w m = Returns false <->
       JSON_stringify (objects w) (model m) = Returns (originalStr m)).
Proof.
  unfold isDirty.
  destruct (JSON_stringify (objects w) (model m)) as [text|]; simpl.
  - destruct (text_eqb text (originalStr m)) eqn:E; simpl.
    + apply text_eqb_eq in E. subst. split; split; try done.
      intros (t & [= <-] & Hne). done.
    + assert (Hne : text <> originalStr m).
      { intros ->. by rewrite text_eqb_refl in E. }
      split; split; try done; [eauto|]. intros [= ->]. done.
  - split; split; try done. intros (t & Ht & _). done.
Qed.

(** C4, as stated, fails: the hook is mounted on [{a: 1, b: 2}] and
    rendered again with [{b: 2, a: 1}]; the snapshot is derived anew from
    the second object, and [isDirty()] reports false. *)
Lemma isDirty_false_after_key_order_swap :
  swap_scenario = Returns swapped_ba
  /\ seen_original (snd mounted_ab) = VRef 0
  /\ seen_original (snd swapped_ba) = VRef 1
  /\ originalStr (snd mounted_ab) = Some (JObj [("a", JNum 1); ("b", JNum 2)])
  /\ originalStr (snd swapped_ba) = Some (JObj [("b", JNum 2); ("a", JNum 1)])
  /\ isDirty (fst swapped_ba) (snd swapped_ba) = Returns false
  /\ isDirty (fst swapped_ba) (snd swapped_ba) <> Returns true.
Proof. vm_compute. repeat split. discriminate. Qed.

(** C4, amended: when the Original reference is replaced by another object,
    whatever its content and key order, the render after the swap derives
    the snapshot from the new Original, and [isDirty()] reports false
    immediately after the swap. *)
Theorem isDirty_false_after_original_swap
  (original : value) (w w' : world) (m m' : memo) :
  heap_wf (objects w) = true ->
  original <> seen_original m ->
  render original w m = Returns (w', m') ->
  isDirty w' m' = Returns false
  /\ seen_original m' = original
  /\ JSON_stringify (objects w') (model m') = Returns (originalStr m').
Proof.
  intros Hh Hne. unfold render. cbv zeta.
  apply strict_eq_false in Hne. rewrite Hne.
  destruct (compute_originalStr original (bump (bump w))) as [ws|] eqn:Es; simpl; [|done].
  rewrite andb_false_r. simpl.
  destruct (compute_originalStr_wf original (bump (bump w)) ws Hh Es) as (Wt & _).
  destruct (compute_model (snd ws) (fst ws)) as [wm|] eqn:Em; simpl; [|done].
  destruct (compute_model_clean _ _ _ Wt Em) as (Hs & _).
  assert (Hclean : forall wp : world * nat,
             objects (fst wp) = objects (fst wm) ->
             isDirty (fst wp)
               {| seen_original := original; originalStr := snd ws;
                  seen_resetId := resetId w; model := snd wm;
                  seen_refreshId := refreshId w; proxy := snd wp |} = Returns false
             /\ JSON_stringify (objects (fst wp)) (snd wm) = Returns (snd ws)).
  { intros wp Ho. unfold isDirty. simpl. rewrite Ho, Hs. simpl.
    by rewrite text_eqb_refl. }
  destruct (strict_eq (snd wm) (model m) && Nat.eqb (refreshId w) (seen_refreshId m)).
  - simpl. intros [= <- <-]. simpl. destruct (Hclean (fst wm, proxy m) eq_refl). auto.
  - destruct (createProxy (snd wm) (fst wm)) as [wp|] eqn:Ep; simpl; [|done].
    intros [= <- <-]. simpl.
    destruct (createProxy_keeps _ _ _ Ep) as (Ho & _).
    destruct (Hclean wp Ho). auto.
Qed.

Lemma isDirty_false_after_original_swap_witness :
  isDirty (fst swapped_ba) (snd swapped_ba) = Returns false
  /\ seen_original (snd swapped_ba) = VRef 1
  /\ JSON_stringify (objects (fst swapped_ba)) (model (snd swapped_ba))
     = Returns (originalStr (snd swapped_ba)).
Proof.
  apply (isDirty_false_after_original_swap (VRef 1)
           (fst mounted_ab) (fst swapped_ba) (snd mounted_ab) (snd swapped_ba)).
  - vm_compute. reflexivity.
  - vm_compute. discriminate.
  - vm_compute. reflexivity.
Defined.

(** ** What a render does to the memo cells *)

Lemma render_returns (original : value) (w w' : world) (m m' : memo) :
  render original w m = Returns (w', m') ->
  exists (ws : world * option json) (wm : world * value),
    (if strict_eq original (seen_original m)
     then Returns (bump (bump w), originalStr m)
     else compute_originalStr original (bump (bump w))) = Returns ws
    /\ (if text_eqb (snd ws) (originalStr m)
           && strict_eq original (seen_original m)
           && Nat.eqb (resetId w) (seen_resetId m)
        then Returns (fst ws, model m)
        else compute_model (snd ws) (fst ws)) = Returns wm
    /\ objects w' = objects (fst wm)
    /\ counter w' = counter (fst wm)
    /\ resetId w' = resetId (fst wm)
    /\ refreshId w' = refreshId (fst wm)
    /\ seen_original m' = original
    /\ originalStr m' = snd ws
    /\ seen_resetId m' = resetId w
    /\ model m' = snd wm
    /\ seen_refreshId m' = refreshId w
    /\ ((proxy m' = proxy m /\ proxies w' = proxies (fst wm)
         /\ snd wm = model m /\ refreshId w = seen_refreshId m)
        \/ (exists l, snd wm = VRef l
                      /\ proxy m' = length (proxies (fst wm))
                      /\ proxies w' = proxies (fst wm) ++ [{| target := l; getMap := ∅ |}]
                      /\ (snd wm <> model m \/ refreshId w <> seen_refreshId m))).
Proof.
  unfold render. cbv zeta.
  destruct (if strict_eq original (seen_original m) then _ else _) as [ws|] eqn:Es;
    simpl; [|done].
  destruct (if text_eqb (snd ws) (originalStr m) && _ && _ then _ else _) as [wm|] eqn:Em;
    simpl; [|done].
  destruct (strict_eq (snd wm) (model m) && Nat.eqb (refreshId w) (seen_refreshId m)) eqn:Ec.
  - simpl. intros [= <- <-]. simpl. exists ws, wm.
    apply andb_true_iff in Ec as [E1 E2].
    apply strict_eq_true in E1. apply Nat.eqb_eq in E2.
    repeat split; auto.
  - destruct (createProxy (snd wm) (fst wm)) as [wp|] eqn:Ep; simpl; [|done].
    intros [= <- <-]. simpl. exists ws, wm.
    destruct (createProxy_keeps _ _ _ Ep) as (Ho & (l & El) & Hp & Hps & Hr & Hf & Hc).
    rewrite El in Hps.
    repeat split; auto. right. exists l. repeat split; auto.
    apply andb_false_iff in Ec as [E1|E2].
    + left. by apply strict_eq_false.
    + right. by apply Nat.eqb_neq.
Qed.

(** ** Reading the members of a parsed object *)



(** ** Writes only add objects and only advance the counter *)

Section WriteFacts.
Context `{Runtime}.

Lemma normalize_grows (item : value) (h h1 : heap) (v : value) :
  normalize item h = Returns (h1, v) -> exists ext, h1 = h ++ ext.
Proof.
  unfold normalize. destruct item;
    try (intros [= <- <-]; exists []; by rewrite app_nil_r);
    (destruct (JSON_stringify h _) as [[j|]|]; simpl; try done;
     intros [= E]; destruct (build_grows j h) as [ext Hx];
     rewrite E in Hx; simpl in Hx; eauto).
Qed.

Lemma set_prop_length (h h2 : heap) (l : loc) (k : string) (v : value) :
  set_prop h l k v = Returns h2 -> length h2 = length h.
Proof.
  unfold set_prop. destruct (h !! l) as [[fs|es named]|]; [| |done].
  - intros [= <-]. apply length_insert.
  - destruct (array_index k).
    + intros [= <-]. apply length_insert.
    + destruct (String.eqb k "length").
      * destruct (array_length_of v); [|done]. intros [= <-]. apply length_insert.
      * intros [= <-]. apply length_insert.
Qed.

Lemma uncache_keeps (p : pid) (prop : string) (w : world) :
  objects (uncache p prop w) = objects w
  /\ counter (uncache p prop w) = counter w
  /\ resetId (uncache p prop w) = resetId w
  /\ refreshId (uncache p prop w) = refreshId w
  /\ wrappers (uncache p prop w) = wrappers w
  /\ length (proxies (uncache p prop w)) = length (proxies w).
Proof.
  unfold uncache. destruct (proxies w !! p); simpl; repeat split; auto.
  apply length_insert.
Qed.

Lemma proxy_set_grows (p : pid) (prop : string) (item : value) (w : world) :
  (length (objects w) <= length (objects (fst (proxy_set p prop item w))))%nat
  /\ (counter w <= counter (fst (proxy_set p prop item w)))%nat
  /\ resetId (fst (proxy_set p prop item w)) = resetId w.
Proof.
  unfold proxy_set. destruct (proxies w !! p) as [pr|]; simpl; [|auto].
  destruct (strict_eq _ item); simpl; [auto|].
  destruct (uncache_keeps p prop w) as (Ho & Hc & Hr & _).
  destruct (normalize item (objects (uncache p prop w))) as [[h1 v]|] eqn:En; simpl.
  - apply normalize_grows in En as [ext ->].
    destruct (set_prop _ (target pr) prop v) as [h2|] eqn:Es; simpl.
    + apply set_prop_length in Es. rewrite Es, length_app, Ho, Hc, Hr. repeat split; lia.
    + rewrite length_app, Ho, Hc, Hr. repeat split; lia.
  - rewrite Ho, Hc, Hr. auto.
Qed.


End WriteFacts.

(** ** reset() *)

Lemma build_object_ref (j : json) (h : heap) :
  is_object_text (Some j) = true -> exists l, snd (build j h) = VRef l.
Proof.
  destruct j; simpl; try done; intros _.
  - destruct (build_items build items h). simpl. eauto.
  - destruct (build_members build members h []). simpl. eauto.
Qed.


Section ResetFacts.
Context `{Runtime}.


End ResetFacts.

Example edited_ab_is_dirty :
  isDirty (fst mounted_ab) (snd mounted_ab) = Returns false
  /\ isDirty edited_ab (snd mounted_ab) = Returns true.
Proof. vm_compute. split; reflexivity. Qed.

(** ** Raw assignment and raw read *)

Lemma assoc_put_field {A} (k : string) (v : A) (fs : list (string * A)) :
  assoc k (put_field k v fs) = Some v.
Proof.
  induction fs as [|[k' v'] fs IH]; simpl.
  - by rewrite String.eqb_refl.
  - destruct (String.eqb k k') eqn:E; simpl.
    + by rewrite String.eqb_refl.
    + destruct (comes_before k k'); simpl.
      * by rewrite String.eqb_refl.
      * by rewrite E.
Qed.

Lemma assign_field_put (k : string) (v : value) (fs : list (string * value)) :
  k <> "__proto__" -> assign_field k v fs = put_field k v fs.
Proof.
  intros Hk. unfold assign_field. by rewrite (proj2 (String.eqb_neq _ _) Hk).
Qed.

Lemma assign_field_present (k : string) (v old : value) (fs : list (string * value)) :
  assoc k fs = Some old -> assign_field k v fs = put_field k v fs.
Proof.
  intros Ha. unfold assign_field. rewrite Ha. by destruct (String.eqb k "__proto__").
Qed.

Section ProxyFacts.
Context `{Runtime}.


Lemma uncache_lookup (p : pid) (prop : string) (w : world) (pr : proxy_rec) :
  proxies w !! p = Some pr ->
  proxies (uncache p prop w) !! p
  = Some {| target := target pr; getMap := delete prop (getMap pr) |}.
Proof.
  intros Hp. unfold uncache. rewrite Hp. simpl.
  apply list_lookup_insert_eq. by eapply lookup_lt_Some.
Qed.

End ProxyFacts.

(** ** Writes through a proxy *)

Section WriteClaims.
Context `{Runtime}.

(** C6: a write whose new value is identical to the current value of the
    property changes nothing (no refresh, same target, same cache) and
    reports success; and whenever the [set] handler returns, it returns
    true. *)
Theorem same_value_write_is_noop
  (p : pid) (prop : string) (item : value) (w : world) (pr : proxy_rec) :
  proxies w !! p = Some pr ->
  get_prop (objects w) (target pr) prop = item ->
  proxy_set p prop item w = (w, Returns true)
  /\ (forall (p' : pid) (prop' : string) (item' : value) (w0 w' : world) (b : bool),
        proxy_set p' prop' item' w0 = (w', Returns b) -> b = true).
Proof.
  intros Hp Hv. split.
  - unfold proxy_set. rewrite Hp.
    by rewrite (proj2 (strict_eq_true _ _) Hv).
  - intros p' prop' item' w0 w' b. unfold proxy_set.
    destruct (proxies w0 !! p') as [pr'|]; [|done].
    destruct (strict_eq _ item'); [by intros [= _ <-]|].
    destruct (normalize item' _) as [[h1 v]|]; [|done].
    destruct (set_prop h1 _ prop' v); [by intros [= _ <-]|done].
Qed.


End WriteClaims.

Lemma same_value_write_is_noop_witness :
  proxy_set (H := sample_runtime) 0 "a" (VNum 1) (fst mounted_ab)
    = (fst mounted_ab, Returns true)
  /\ (forall (p' : pid) (prop' : string) (item' : value) (w0 w' : world) (b : bool),
        proxy_set (H := sample_runtime) p' prop' item' w0 = (w', Returns b) -> b = true).
Proof.
  apply (same_value_write_is_noop (H := sample_runtime) 0 "a" (VNum 1)
           (fst mounted_ab) root_proxy_ab).
  - vm_compute. reflexivity.
  - vm_compute. reflexivity.
Defined.



(** ** Identity of child proxies *)


(** C10: the code departs from the claim where a method call left a cache
    entry stale.  [model.list[0]] is read as an object, then
    [model.list.pop()] and [model.list.push(f)] for a function [f] make
    element 0 function-typed; the read of [model.list[0]] consults the
    cache and returns the child proxy cached for the object that was
    there, not a new wrapper.  The [set] handler drops the cache entry of
    the key it writes; the wrapper of a method that changes the target
    drops none. *)
Lemma stale_cache_hides_method :
  snd read_item = Returns (Proxy 2)
  /\ snd call_pop = Returns (VRef 3)
  /\ snd call_push_function = Returns (VNum 1)
  /\ get_prop (H := sample_runtime) (objects (fst call_push_function)) 4 "0" = VFun m_push
  /\ snd read_function_item = Returns (Proxy 2)
  /\ (forall f, snd read_function_item <> Returns (Wrapper f)).
Proof. vm_compute. repeat split. discriminate. Qed.

Section ReadFacts.
Context `{Runtime}.






End ReadFacts.

(** ** The cache invariant *)

Section CacheInvariant.
Context `{Runtime}.

Lemma caches_valid_proxies (w w' : world) :
  proxies w' = proxies w -> caches_valid w -> caches_valid w'.
Proof. unfold caches_valid. intros ->. done. Qed.

Lemma caches_valid_new_proxy (l : loc) (w : world) :
  caches_valid w -> caches_valid (fst (new_proxy l w)).
Proof.
  intros Hv p pr k q. simpl. rewrite length_app. simpl.
  destruct (decide (p < length (proxies w))%nat) as [Hlt|Hge].
  - rewrite lookup_app_l by done. intros Hp Hk.
    specialize (Hv p pr k q Hp Hk). lia.
  - rewrite lookup_app_r by lia.
    destruct (p - length (proxies w))%nat; simpl; [|done].
    intros [= <-]. simpl. by rewrite lookup_empty.
Qed.

Lemma caches_valid_cache (p : pid) (prop : string) (q : pid) (w : world) :
  (q < length (proxies w))%nat -> caches_valid w -> caches_valid (cache p prop q w).
Proof.
  intros Hq Hv. unfold cache. destruct (proxies w !! p) as [pr|] eqn:Hp; [|done].
  intros p' pr' k q'. simpl. rewrite length_insert.
  destruct (decide (p = p')) as [<-|Hne].
  - rewrite list_lookup_insert_eq by (by eapply lookup_lt_Some).
    intros [= <-]. simpl. destruct (decide (prop = k)) as [<-|Hk].
    + rewrite lookup_insert_eq. by intros [= <-].
    + rewrite lookup_insert_ne by done. by apply (Hv p pr).
  - rewrite list_lookup_insert_ne by done. apply Hv.
Qed.

Lemma caches_valid_uncache (p : pid) (prop : string) (w : world) :
  caches_valid w -> caches_valid (uncache p prop w).
Proof.
  intros Hv. unfold uncache. destruct (proxies w !! p) as [pr|] eqn:Hp; [|done].
  intros p' pr' k q'. simpl. rewrite length_insert.
  destruct (decide (p = p')) as [<-|Hne].
  - rewrite list_lookup_insert_eq by (by eapply lookup_lt_Some).
    intros [= <-]. simpl. destruct (decide (prop = k)) as [<-|Hk].
    + by rewrite lookup_delete_eq.
    + rewrite lookup_delete_ne by done. by apply (Hv p pr).
  - rewrite list_lookup_insert_ne by done. apply Hv.
Qed.

Lemma caches_valid_get (p : pid) (prop : string) (w : world) :
  caches_valid w -> caches_valid (fst (proxy_get p prop w)).
Proof.
  intros Hv. unfold proxy_get. destruct (proxies w !! p) as [pr|]; [|done].
  destruct (getMap pr !! "hasOwnProperty"); [done|].
  destruct (getMap pr !! prop); [done|].
  destruct (get_prop (objects w) (target pr) prop); try done.
  cbn [fst new_proxy].
  destruct (String.eqb prop "__proto__"); [by apply (caches_valid_new_proxy l w)|].
  apply caches_valid_cache.
  - simpl. rewrite length_app. simpl. lia.
  - by apply (caches_valid_new_proxy l w).
Qed.

Lemma caches_valid_set (p : pid) (prop : string) (item : value) (w : world) :
  caches_valid w -> caches_valid (fst (proxy_set p prop item w)).
Proof.
  intros Hv. unfold proxy_set. destruct (proxies w !! p) as [pr|]; [|done].
  destruct (strict_eq _ item); [done|]. cbv zeta.
  pose proof (caches_valid_uncache p prop w Hv) as Hu.
  destruct (normalize item _) as [[h1 v]|]; [|done].
  destruct (set_prop h1 (target pr) prop v); simpl;
    by eapply caches_valid_proxies.
Qed.

Lemma caches_valid_call (f : wid) (args : list value) (w : world) :
  caches_valid w -> caches_valid (fst (call_wrapper f args w)).
Proof.
  intros Hv. unfold call_wrapper. destruct (wrappers w !! f) as [wr|]; [|done].
  destruct (JSON_stringify (objects w) _) as [before|]; [|done].
  destruct (invoke _ _ args (objects w)) as [h1 [result|]]; [|done].
  destruct (JSON_stringify h1 _) as [after|]; [|done].
  simpl. destruct (text_eqb after before); by eapply caches_valid_proxies.
Qed.

Lemma caches_valid_mount (original : value) (w w' : world) (m : memo) :
  caches_valid w -> mount original w = Returns (w', m) -> caches_valid w'.
Proof.
  intros Hv. unfold mount. cbv zeta.
  destruct (compute_originalStr original _) as [ws|] eqn:Es; simpl; [|done].
  destruct (compute_model (snd ws) (fst ws)) as [wm|] eqn:Em; simpl; [|done].
  destruct (createProxy (snd wm) (fst wm)) as [wp|] eqn:Ep; simpl; [|done].
  intros [= <- _].
  assert (Hs : proxies (fst ws) = proxies w).
  { unfold compute_originalStr in Es. destruct (truthy original); simpl in Es;
      destruct (JSON_stringify _ _); simpl in Es; try done;
      by injection Es as <-. }
  assert (Hm : proxies (fst wm) = proxies w).
  { unfold compute_model in Em. destruct (JSON_parse _ _); simpl in Em; [|done].
    by injection Em as <-. }
  destruct (snd wm) as [| | | | |l|]; simpl in Ep; try done.
  injection Ep as <-. apply caches_valid_new_proxy.
  by eapply caches_valid_proxies.
Qed.

End CacheInvariant.

Section ReadClaims.
Context `{Runtime}.


End ReadClaims.


(** ** Method calls through a proxy *)

Lemma stringify_extend (h ext : heap) (v : value) r :
  JSON_stringify h v = Returns r -> JSON_stringify (h ++ ext) v = Returns r.
Proof.
  unfold JSON_stringify. intros Hs.
  apply ser_extend with (S (length h)); [done|]. rewrite length_app. lia.
Qed.

Section CallFacts.
Context `{Runtime}.



End CallFacts.



(** ** Assignments keep the enumeration order *)

Lemma comes_before_asym (a b : string) :
  comes_before a b = true -> comes_before b a = false.
Proof.
  unfold comes_before.
  destruct (array_index a) as [i|], (array_index b) as [j|]; try done.
  intros Hlt. apply Nat.ltb_lt in Hlt. apply Nat.ltb_ge. lia.
Qed.

Lemma comes_before_trans (a b c : string) :
  comes_before a b = true -> comes_before b c = true -> comes_before a c = true.
Proof.
  unfold comes_before.
  destruct (array_index a) as [i|], (array_index b) as [j|],
           (array_index c) as [k|]; try done.
  rewrite !Nat.ltb_lt. lia.
Qed.

Lemma put_field_ordered {A} (k : string) (v : A) (fs : list (string * A)) :
  ordered_keys (map fst fs) = true ->
  ordered_keys (map fst (put_field k v fs)) = true
  /\ forall e,
       forallb (fun k' => negb (String.eqb k' e) && negb (comes_before k' e))
         (map fst fs) = true ->
       String.eqb k e = false -> comes_before k e = false ->
       forallb (fun k' => negb (String.eqb k' e) && negb (comes_before k' e))
         (map fst (put_field k v fs)) = true.
Proof.
  induction fs as [|[k' v'] fs IH]; simpl.
  - intros _. split; [done|]. intros e _ -> ->. done.
  - rewrite andb_true_iff. intros [Hk' Hord].
    destruct (IH Hord) as [IH1 IH2].
    destruct (String.eqb k k') eqn:Ee; [|destruct (comes_before k k') eqn:Ec]; simpl.
    + apply String.eqb_eq in Ee. subst k'. rewrite Hk', Hord.
      split; [done|]. intros e He _ _. exact He.
    + rewrite String.eqb_sym, Ee, (comes_before_asym _ _ Ec), Hk', Hord. simpl.
      split.
      * rewrite andb_true_r. apply forallb_forall. intros x Hx.
        rewrite forallb_forall in Hk'. specialize (Hk' x Hx).
        apply andb_true_iff in Hk' as [Hne Hcb].
        apply negb_true_iff in Hne, Hcb.
        apply andb_true_iff. split; apply negb_true_iff.
        -- apply not_true_is_false. intros Hxk. apply String.eqb_eq in Hxk.
           subst x. congruence.
        -- apply not_true_is_false. intros Hxk.
           rewrite (comes_before_trans _ _ _ Hxk Ec) in Hcb. done.
      * intros e He -> ->. simpl. exact He.
    + split.
      * rewrite IH1, andb_true_r. apply IH2; [done| |done].
        done.
      * intros e He Hke Hce. apply andb_true_iff in He as [He1 He2].
        rewrite He1. simpl. by apply IH2.
Qed.

Lemma put_field_canonical {A} (k : string) (v : A) (fs : list (string * A)) :
  canonical fs = true -> canonical (put_field k v fs) = true.
Proof. intros Hc. by apply put_field_ordered. Qed.

(** ** Well-formed heaps stay well formed *)

Lemma heap_wf_Forall (h : heap) :
  heap_wf h = true <-> Forall (fun o => obj_wf o = true) h.
Proof.
  unfold heap_wf. rewrite forallb_forall, Forall_forall.
  split; intros Hh o Ho; apply Hh; by apply list_elem_of_In.
Qed.

Lemma heap_wf_app (h ext : heap) :
  heap_wf (h ++ ext) = true <-> heap_wf h = true /\ heap_wf ext = true.
Proof. unfold heap_wf. by rewrite forallb_app, andb_true_iff. Qed.

Lemma heap_wf_insert (h : heap) (l : loc) (o : obj) :
  heap_wf h = true -> obj_wf o = true -> heap_wf (<[l := o]> h) = true.
Proof.
  rewrite !heap_wf_Forall. intros Hh Ho. by apply Forall_insert.
Qed.

Lemma build_items_wf (js : list json) :
  Forall (fun j => forall h, heap_wf h = true -> heap_wf (fst (build j h)) = true) js ->
  forall h, heap_wf h = true -> heap_wf (fst (build_items build js h)) = true.
Proof.
  induction 1 as [|j js Hj _ IH]; intros h Hh; simpl; [done|].
  specialize (Hj h Hh). destruct (build j h) as [h1 v]. simpl in Hj.
  specialize (IH h1 Hj). destruct (build_items build js h1) as [h2 vs]. done.
Qed.

Lemma build_members_wf (kvs : list (string * json)) :
  Forall (fun kx => forall h, heap_wf h = true ->
                              heap_wf (fst (build (snd kx) h)) = true) kvs ->
  forall h acc, heap_wf h = true -> canonical acc = true ->
    heap_wf (fst (build_members build kvs h acc)) = true
    /\ canonical (snd (build_members build kvs h acc)) = true.
Proof.
  induction 1 as [|[k j] kvs Hj _ IH]; intros h acc Hh Hacc; simpl; [done|].
  simpl in Hj. specialize (Hj h Hh). destruct (build j h) as [h1 v]. simpl in Hj.
  apply IH; [done|]. by apply put_field_canonical.
Qed.

Lemma build_wf (j : json) (h : heap) :
  heap_wf h = true -> heap_wf (fst (build j h)) = true.
Proof.
  revert h. induction j as [| | | |js IH|kvs IH] using json_nested_ind;
    intros h Hh; simpl; try done.
  - pose proof (build_items_wf js IH h Hh) as Hw.
    destruct (build_items build js h) as [h1 vs]. simpl in *.
    apply heap_wf_app. done.
  - destruct (build_members_wf kvs IH h [] Hh eq_refl) as [Hw Hc].
    destruct (build_members build kvs h []) as [h1 fs]. simpl in *.
    apply heap_wf_app. split; [done|]. unfold heap_wf. simpl. by rewrite Hc.
Qed.

Section WellFormedWrites.
Context `{Runtime}.

Lemma normalize_wf (item : value) (h h1 : heap) (v : value) :
  heap_wf h = true -> normalize item h = Returns (h1, v) -> heap_wf h1 = true.
Proof.
  intros Hh. unfold normalize.
  destruct item; try (by intros [= <- _]);
    (destruct (JSON_stringify h _) as [[j|]|]; simpl; try done;
     intros [= E]; pose proof (build_wf j h Hh) as Hw; by rewrite E in Hw).
Qed.

Lemma set_prop_wf (h h2 : heap) (l : loc) (k : string) (v : value) :
  heap_wf h = true -> set_prop h l k v = Returns h2 -> heap_wf h2 = true.
Proof.
  intros Hh. unfold set_prop.
  destruct (h !! l) as [[fs|es named]|] eqn:El; [| |done].
  - intros [= <-]. apply heap_wf_insert; [done|]. simpl.
    assert (Hc : canonical fs = true).
    { apply heap_wf_Forall in Hh. rewrite Forall_forall in Hh.
      apply (Hh (ORec fs)). by eapply list_elem_of_lookup_2. }
    unfold assign_field.
    destruct (String.eqb k "__proto__"); [destruct (assoc k fs)|];
      try done; by apply put_field_canonical.
  - destruct (array_index k).
    + intros [= <-]. by apply heap_wf_insert.
    + destruct (String.eqb k "length").
      * destruct (array_length_of v); [|done]. intros [= <-]. by apply heap_wf_insert.
      * intros [= <-]. by apply heap_wf_insert.
Qed.

Lemma proxy_set_wf (p : pid) (prop : string) (item : value) (w : world) :
  heap_wf (objects w) = true ->
  heap_wf (objects (fst (proxy_set p prop item w))) = true.
Proof.
  intros Hh. unfold proxy_set. destruct (proxies w !! p) as [pr|]; [|done].
  destruct (strict_eq _ item); [done|]. cbv zeta.
  destruct (uncache_keeps p prop w) as (Ho & _). rewrite Ho.
  destruct (normalize item (objects w)) as [[h1 v]|] eqn:En; simpl; [|by rewrite Ho].
  pose proof (normalize_wf _ _ _ _ Hh En) as Hw.
  destruct (set_prop h1 (target pr) prop v) as [h2|] eqn:Es; simpl; [|done].
  by eapply set_prop_wf.
Qed.

Lemma proxy_get_objects (p : pid) (prop : string) (w : world) :
  objects (fst (proxy_get p prop w)) = objects w
  /\ counter (fst (proxy_get p prop w)) = counter w
  /\ resetId (fst (proxy_get p prop w)) = resetId w
  /\ (length (proxies w) <= length (proxies (fst (proxy_get p prop w))))%nat.
Proof.
  unfold proxy_get. destruct (proxies w !! p) as [pr|] eqn:Hp; [|auto].
  destruct (getMap pr !! "hasOwnProperty"); [auto|].
  destruct (getMap pr !! prop); [auto|].
  destruct (get_prop (objects w) (target pr) prop); simpl; auto.
  destruct (String.eqb prop "__proto__"); simpl.
  - rewrite length_app. repeat split; lia.
  - unfold cache. simpl. rewrite (lookup_app_l_Some _ _ _ _ Hp). simpl.
    rewrite length_insert, length_app. repeat split; lia.
Qed.

End WellFormedWrites.

(** ** The invariant holds in every state of a mounted hook *)

Lemma build_ref_object_text (j : json) (h : heap) (l : loc) :
  snd (build j h) = VRef l -> is_object_text (Some j) = true.
Proof. destruct j; simpl; done. Qed.

Lemma caches_valid_snoc (w w' : world) (l : loc) :
  proxies w' = proxies w ++ [{| target := l; getMap := ∅ |}] ->
  caches_valid w -> caches_valid w'.
Proof.
  intros E Hv. apply (caches_valid_proxies (fst (new_proxy l w)) w'); [done|].
  by apply caches_valid_new_proxy.
Qed.

Lemma mount_inv (original : value) (w w' : world) (m : memo) :
  heap_wf (objects w) = true -> caches_valid w ->
  mount original w = Returns (w', m) -> hook_inv w' m.
Proof.
  intros Hh Hv Hm. pose proof (caches_valid_mount _ _ _ _ Hv Hm) as Hv'.
  revert Hm. unfold mount. cbv zeta.
  set (w1 := {| objects := objects w; proxies := proxies w; wrappers := wrappers w;
                counter := S (S (counter w)); resetId := S (counter w);
                refreshId := S (S (counter w)) |}).
  destruct (compute_originalStr original w1) as [ws|] eqn:Es; simpl; [|done].
  destruct (compute_originalStr_wf original w1 ws Hh Es)
    as (Wt & _ & Hws & Hps & Hrs & _ & Hcs).
  destruct (compute_model (snd ws) (fst ws)) as [wm|] eqn:Em; simpl; [|done].
  destruct (compute_model_clean _ _ _ Wt Em) as (_ & Hpm & _ & _ & Hcm & j & Ej & Ewm).
  destruct (createProxy (snd wm) (fst wm)) as [wp|] eqn:Ep; simpl; [|done].
  destruct (createProxy_keeps _ _ _ Ep) as (Ho & (l & El) & Hp & Hpp & Hr & _ & Hc).
  intros [= <- <-]. unfold hook_inv. simpl.
  rewrite Ho, Hc, Hr, Hp, Hpp, Hcm, Hcs, length_app.
  rewrite Ewm in El |- *. simpl in El |- *.
  rewrite Hrs. subst w1. simpl.
  split; [by apply build_wf|]. split; [done|].
  split; [rewrite Ej; by apply (build_ref_object_text j (objects (fst ws)) l)|].
  split; [exists l; split; [done|by apply build_ref_fresh in El as [_ ?]]|].
  repeat split; try lia; done.
Qed.

Lemma render_inv (original : value) (w w' : world) (m m' : memo) :
  hook_inv w m -> render original w m = Returns (w', m') -> hook_inv w' m'.
Proof.
  intros (Hh & Wt & Ot & (l0 & Hm & Hl0) & Hsr & Hr & Hpx & Hv) Hrender.
  destruct (render_returns _ _ _ _ _ Hrender)
    as (ws & wm & Es & Em & Ho & Hc & Hrid & _ & _ & Hos & Hsr' & Hmod & _ & Hp).
  (* the serialization of the Original *)
  assert (Hws : text_wf (snd ws) = true
                /\ heap_wf (objects (fst ws)) = true
                /\ (length (objects w) <= length (objects (fst ws)))%nat
                /\ proxies (fst ws) = proxies w
                /\ resetId (fst ws) = resetId w
                /\ counter (fst ws) = S (S (counter w))
                /\ (strict_eq original (seen_original m) = true ->
                    snd ws = originalStr m)).
  { destruct (strict_eq original (seen_original m)).
    - injection Es as <-. simpl. auto 10.
    - destruct (compute_originalStr_wf original (bump (bump w)) ws Hh Es)
        as (? & (ext & Hext) & ? & ? & ? & _ & ?).
      simpl in *. repeat split; auto; try done.
      rewrite Hext, length_app. lia. }
  destruct Hws as (Wws & Hhs & Hls & Hps & Hrs & Hcs & Hsame).
  (* the snapshot *)
  assert (Hwm : heap_wf (objects (fst wm)) = true
                /\ proxies (fst wm) = proxies w
                /\ resetId (fst wm) = resetId w
                /\ counter (fst wm) = S (S (counter w))
                /\ (exists l, snd wm = VRef l /\ (l < length (objects (fst wm)))%nat)
                /\ is_object_text (snd ws) = true).
  { destruct (text_eqb (snd ws) (originalStr m)
              && strict_eq original (seen_original m)
              && Nat.eqb (resetId w) (seen_resetId m)) eqn:Ec.
    - injection Em as <-. simpl.
      apply andb_true_iff in Ec as [Ec _]. apply andb_true_iff in Ec as [_ Ec].
      rewrite (Hsame Ec). repeat split; auto. exists l0. split; [done|lia].
    - destruct (compute_model_clean _ _ _ Wws Em)
        as (_ & Hpm & Hrm & _ & Hcm & j & Ej & Ewm).
      rewrite Hpm, Hrm, Hcm, Ewm. simpl.
      assert (Hl : exists l, snd (build j (objects (fst ws))) = VRef l).
      { destruct Hp as [(_ & _ & E & _)|(l & E & _)];
          rewrite Ewm in E; simpl in E; [rewrite E, Hm|]; eauto. }
      destruct Hl as (l & Hl).
      split; [by apply build_wf|]. repeat split; auto.
      + exists l. split; [done|]. by apply build_ref_fresh in Hl as [_ ?].
      + rewrite Ej. by apply (build_ref_object_text j (objects (fst ws)) l). }
  destruct Hwm as (Hhm & Hpm & Hrm & Hcm & Hl & Hot).
  unfold hook_inv. rewrite Ho, Hc, Hrid, Hos, Hsr', Hmod, Hrm, Hcm.
  split; [done|]. split; [done|]. split; [done|]. split; [done|].
  split; [lia|]. split; [lia|].
  destruct Hp as [(E1 & E2 & _)|(l & _ & E1 & E2 & _)].
  - rewrite E1, E2, Hpm. split; [done|]. by apply (caches_valid_proxies w); [congruence|].
  - rewrite E1, E2, Hpm, length_app. simpl. split; [lia|].
    apply (caches_valid_snoc w w' l); [congruence|done].
Qed.

Section InvariantSteps.
Context `{Runtime}.

Lemma proxy_get_inv (p : pid) (prop : string) (w : world) (m : memo) :
  hook_inv w m -> hook_inv (fst (proxy_get p prop w)) m.
Proof.
  intros (Hh & Wt & Ot & (l0 & Hm & Hl0) & Hsr & Hr & Hpx & Hv).
  destruct (proxy_get_objects p prop w) as (Ho & Hc & Hrid & Hlen).
  unfold hook_inv. rewrite Ho, Hc, Hrid.
  repeat split; auto; try lia; [eauto|]. by apply caches_valid_get.
Qed.

Lemma proxy_set_inv (p : pid) (prop : string) (item : value) (w : world) (m : memo) :
  hook_inv w m -> hook_inv (fst (proxy_set p prop item w)) m.
Proof.
  intros (Hh & Wt & Ot & (l0 & Hm & Hl0) & Hsr & Hr & Hpx & Hv).
  destruct (proxy_set_grows p prop item w) as (Hlen & Hc & Hrid).
  unfold hook_inv. rewrite Hrid.
  split; [by apply proxy_set_wf|]. split; [done|]. split; [done|].
  split; [exists l0; split; [done|lia]|]. split; [lia|]. split; [lia|].
  split; [|by apply caches_valid_set].
  unfold proxy_set. destruct (proxies w !! p) as [pr|] eqn:Hp; [|done].
  destruct (strict_eq _ item); [done|]. cbv zeta.
  destruct (uncache_keeps p prop w) as (_ & _ & _ & _ & _ & Hl).
  destruct (normalize item _) as [[h1 v]|]; [|simpl; by rewrite Hl].
  destruct (set_prop h1 (target pr) prop v); simpl; by rewrite Hl.
Qed.

End InvariantSteps.

Lemma reset_inv (w : world) (m : memo) : hook_inv w m -> hook_inv (reset w) m.
Proof.
  intros (Hh & Wt & Ot & Hm & Hsr & Hr & Hpx & Hv).
  unfold hook_inv. simpl. repeat split; auto.
Qed.

Lemma refresh_inv (w : world) (m : memo) : hook_inv w m -> hook_inv (refresh w) m.
Proof.
  intros (Hh & Wt & Ot & Hm & Hsr & Hr & Hpx & Hv).
  unfold hook_inv. simpl. repeat split; auto.
Qed.

Lemma sample_runtime_lawful : LawfulRuntime (H := sample_runtime).
Proof.
  split; intros m l args h; simpl; unfold sample_invoke.
  - intros Hh. unfold alloc. repeat case_match; simplify_eq; simpl; try done;
      try (by apply heap_wf_insert); by apply heap_wf_app.
  - unfold alloc. repeat case_match; simplify_eq; simpl;
      rewrite ?length_insert, ?length_app; lia.
Qed.

Section Reachable.
Context `{LawfulRuntime}.

Lemma call_wrapper_keeps (f : wid) (args : list value) (w : world) :
  heap_wf (objects w) = true ->
  heap_wf (objects (fst (call_wrapper f args w))) = true
  /\ (length (objects w) <= length (objects (fst (call_wrapper f args w))))%nat
  /\ (counter w <= counter (fst (call_wrapper f args w)))%nat
  /\ resetId (fst (call_wrapper f args w)) = resetId w
  /\ proxies (fst (call_wrapper f args w)) = proxies w.
Proof.
  intros Hh. unfold call_wrapper. destruct (wrappers w !! f) as [wr|]; [|auto].
  destruct (JSON_stringify (objects w) _) as [before|]; [|auto].
  pose proof (invoke_wf (w_method wr) (w_target wr) args (objects w) Hh) as Hw.
  pose proof (invoke_grows (w_method wr) (w_target wr) args (objects w)) as Hg.
  destruct (invoke _ _ args (objects w)) as [h1 [result|]]; simpl in Hw, Hg; [|auto].
  destruct (JSON_stringify h1 _) as [after|]; [|auto].
  destruct (text_eqb after before); simpl; auto.
Qed.

Lemma call_wrapper_inv (f : wid) (args : list value) (w : world) (m : memo) :
  hook_inv w m -> hook_inv (fst (call_wrapper f args w)) m.
Proof.
  intros (Hh & Wt & Ot & (l0 & Hm & Hl0) & Hsr & Hr & Hpx & Hv).
  destruct (call_wrapper_keeps f args w Hh) as (Hw & Hlen & Hc & Hrid & Hps).
  unfold hook_inv. rewrite Hrid, Hps.
  split; [done|]. split; [done|]. split; [done|].
  split; [exists l0; split; [done|lia]|]. split; [lia|]. split; [lia|].
  split; [done|]. by apply (caches_valid_proxies w).
Qed.

(** Every state a mounted hook passes through satisfies the invariant. *)
Lemma reachable_inv (w : world) (m : memo) : reachable w m -> hook_inv w m.
Proof.
  induction 1.
  - by eapply mount_inv.
  - by eapply render_inv.
  - by apply proxy_get_inv.
  - by apply proxy_set_inv.
  - by apply call_wrapper_inv.
  - by apply reset_inv.
  - by apply refresh_inv.
Qed.

End Reachable.

(** * Further properties of the hook *)

(** ** Mounting *)

Lemma stringify_scalar (h : heap) (v : value) :
  match v with VRef _ => False | _ => True end ->
  JSON_stringify h v
  = Returns (match v with
             | VNull => Some JNull
             | VBool b => Some (JBool b)
             | VNum z => Some (JNum z)
             | VStr s => Some (JStr s)
             | _ => None
             end).
Proof. unfold JSON_stringify. rewrite ser_S. by destruct v. Qed.

(** X1: right after the first render [isDirty()] is false: the snapshot
    serializes to [originalStr]; and the snapshot is a new object, never
    the caller's. *)
Theorem mount_is_clean (original : value) (w w' : world) (m : memo) :
  heap_wf (objects w) = true ->
  mount original w = Returns (w', m) ->
  isDirty w' m = Returns false
  /\ JSON_stringify (objects w') (model m) = Returns (originalStr m)
  /\ (exists l, model m = VRef l /\ (length (objects w) <= l)%nat)
  /\ counter w' = S (S (counter w))
  /\ resetId w' = S (counter w)
  /\ refreshId w' = S (S (counter w)).
Proof.
  intros Hh. unfold mount. cbv zeta.
  set (w1 := {| objects := objects w; proxies := proxies w; wrappers := wrappers w;
                counter := S (S (counter w)); resetId := S (counter w);
                refreshId := S (S (counter w)) |}).
  destruct (compute_originalStr original w1) as [ws|] eqn:Es; simpl; [|done].
  destruct (compute_originalStr_wf original w1 ws Hh Es)
    as (Wt & (ext & Hext) & _ & _ & Hrs & Hfs & Hcs).
  destruct (compute_model (snd ws) (fst ws)) as [wm|] eqn:Em; simpl; [|done].
  destruct (compute_model_clean _ _ _ Wt Em) as (Hs & _ & Hrm & Hfm & Hcm & j & Ej & Ewm).
  destruct (createProxy (snd wm) (fst wm)) as [wp|] eqn:Ep; simpl; [|done].
  destruct (createProxy_keeps _ _ _ Ep) as (Ho & (l & El) & _ & _ & Hr & Hf & Hc).
  intros [= <- <-]. unfold isDirty. simpl.
  rewrite Ho, Hs, Hc, Hr, Hf, Hcm, Hrm, Hfm, Hcs, Hrs, Hfs. simpl.
  rewrite text_eqb_refl. repeat split; try done.
  exists l. split; [done|].
  rewrite Ewm in El. simpl in El. apply build_ref_fresh in El as [Hle _].
  rewrite Hext, length_app in Hle. simpl in Hle. lia.
Qed.

Lemma mount_is_clean_witness :
  isDirty (fst mounted_ab) (snd mounted_ab) = Returns false
  /\ JSON_stringify (objects (fst mounted_ab)) (model (snd mounted_ab))
     = Returns (originalStr (snd mounted_ab))
  /\ (exists l, model (snd mounted_ab) = VRef l
                /\ (length (objects caller_world) <= l)%nat)
  /\ counter (fst mounted_ab) = S (S (counter caller_world))
  /\ resetId (fst mounted_ab) = S (counter caller_world)
  /\ refreshId (fst mounted_ab) = S (S (counter caller_world)).
Proof.
  apply (mount_is_clean (VRef 0) caller_world (fst mounted_ab) (snd mounted_ab)).
  - vm_compute. reflexivity.
  - vm_compute. reflexivity.
Defined.

(** X2: mounted on a falsy Original ([original || {}]), the hook works on
    the empty object: [originalStr] is the text of [{}], the snapshot is a
    new empty object behind a new proxy, and [isDirty()] is false. *)
Theorem mount_falsy_original (original : value) (w : world) :
  truthy original = false ->
  exists (w' : world) (m : memo),
    mount original w = Returns (w', m)
    /\ originalStr m = Some (JObj [])
    /\ model m = VRef (S (length (objects w)))
    /\ objects w' = objects w ++ [ORec []; ORec []]
    /\ proxy m = length (proxies w)
    /\ proxies w' = proxies w ++ [{| target := S (length (objects w)); getMap := ∅ |}]
    /\ isDirty w' m = Returns false.
Proof.
  intros Hf.
  assert (Es : forall (h : heap), JSON_stringify (h ++ [ORec []]) (VRef (length h))
                                  = Returns (Some (JObj []))).
  { intros h. unfold JSON_stringify. rewrite ser_S.
    by rewrite lookup_app_r, Nat.sub_diag by lia. }
  unfold mount, compute_originalStr. cbv zeta. rewrite Hf. simpl.
  rewrite Es. simpl. rewrite length_app. simpl. rewrite Nat.add_1_r.
  eexists _, _. split; [reflexivity|]. simpl.
  rewrite <- app_assoc. simpl. repeat split; try done.
  unfold isDirty. simpl.
  replace (objects w ++ [ORec []; ORec []]) with ((objects w ++ [ORec []]) ++ [ORec []])
    by (by rewrite <- app_assoc).
  replace (S (length (objects w))) with (length (objects w ++ [ORec []]))
    by (rewrite length_app; simpl; lia).
  by rewrite Es.
Qed.

Lemma mount_falsy_original_witness :
  exists (w' : world) (m : memo),
    mount VNull empty_world = Returns (w', m)
    /\ originalStr m = Some (JObj [])
    /\ model m = VRef (S (length (objects empty_world)))
    /\ objects w' = objects empty_world ++ [ORec []; ORec []]
    /\ proxy m = length (proxies empty_world)
    /\ proxies w' = proxies empty_world
                    ++ [{| target := S (length (objects empty_world)); getMap := ∅ |}]
    /\ isDirty w' m = Returns false.
Proof. apply (mount_falsy_original VNull empty_world). reflexivity. Defined.

(** X3: mounted on a truthy Original that is not an object, the first
    render throws: a function has no JSON text to parse, and no [Proxy]
    can be made of a boolean, a number or a string. *)
Theorem mount_non_object_throws (original : value) (w : world) :
  truthy original = true ->
  (forall l, original <> VRef l) ->
  mount original w = Throws.
Proof.
  intros Ht Hn. unfold mount, compute_originalStr. cbv zeta. rewrite Ht. simpl.
  rewrite stringify_scalar by (destruct original; [done..|by destruct (Hn l)|done]).
  destruct original; done.
Qed.

Lemma mount_non_object_throws_witness :
  mount (VStr "Jochen") empty_world = Throws.
Proof.
  apply (mount_non_object_throws (VStr "Jochen") empty_world).
  - reflexivity.
  - intros l. discriminate.
Defined.

(** ** Renders *)

Lemma compute_originalStr_keeps (original : value) (w : world) ws :
  compute_originalStr original w = Returns ws ->
  proxies (fst ws) = proxies w /\ wrappers (fst ws) = wrappers w
  /\ counter (fst ws) = counter w
  /\ resetId (fst ws) = resetId w /\ refreshId (fst ws) = refreshId w
  /\ exists ext, objects (fst ws) = objects w ++ ext.
Proof.
  unfold compute_originalStr. destruct (truthy original); simpl.
  - destruct (JSON_stringify (objects w) original); simpl; [|done].
    intros [= <-]. simpl. repeat split. exists []. by rewrite app_nil_r.
  - destruct (JSON_stringify _ _); simpl; [|done].
    intros [= <-]. simpl. repeat split. eauto.
Qed.

Lemma compute_model_keeps (text : option json) (w : world) wm :
  compute_model text w = Returns wm ->
  proxies (fst wm) = proxies w /\ wrappers (fst wm) = wrappers w
  /\ counter (fst wm) = counter w
  /\ resetId (fst wm) = resetId w /\ refreshId (fst wm) = refreshId w
  /\ exists j, text = Some j
               /\ objects (fst wm) = fst (build j (objects w))
               /\ snd wm = snd (build j (objects w)).
Proof.
  unfold compute_model. destruct text as [j|]; simpl; [|done].
  intros [= <-]. simpl. repeat split. eauto.
Qed.

(** What a render does not touch: the trigger cells, the wrappers, the
    proxies made before, the objects there were. *)
Lemma render_keeps (original : value) (w w' : world) (m m' : memo) :
  render original w m = Returns (w', m') ->
  resetId w' = resetId w /\ refreshId w' = refreshId w
  /\ counter w' = S (S (counter w))
  /\ (exists ext, objects w' = objects w ++ ext)
  /\ (exists ps, proxies w' = proxies w ++ ps).
Proof.
  intros Hr.
  destruct (render_returns _ _ _ _ _ Hr)
    as (ws & wm & Es & Em & Ho & Hc & Hrid & Hfid & _ & _ & _ & _ & _ & Hp).
  assert (Hws : proxies (fst ws) = proxies w /\ counter (fst ws) = S (S (counter w))
                /\ resetId (fst ws) = resetId w /\ refreshId (fst ws) = refreshId w
                /\ exists ext, objects (fst ws) = objects w ++ ext).
  { destruct (strict_eq original (seen_original m)).
    - injection Es as <-. simpl. repeat split. exists []. by rewrite app_nil_r.
    - destruct (compute_originalStr_keeps _ _ _ Es) as (? & _ & ? & ? & ? & ?). auto. }
  destruct Hws as (Hps & Hcs & Hrs & Hfs & ext & Hext).
  assert (Hwm : proxies (fst wm) = proxies w /\ counter (fst wm) = S (S (counter w))
                /\ resetId (fst wm) = resetId w /\ refreshId (fst wm) = refreshId w
                /\ exists ext, objects (fst wm) = objects w ++ ext).
  { destruct (_ && _ && _).
    - injection Em as <-. simpl. eauto 10.
    - destruct (compute_model_keeps _ _ _ Em) as (E1 & _ & E2 & E3 & E4 & j & _ & E5 & _).
      rewrite E1, E2, E3, E4, E5. repeat split; try done.
      destruct (build_grows j (objects (fst ws))) as (e2 & ->).
      exists (ext ++ e2). by rewrite Hext, app_assoc. }
  destruct Hwm as (Hpm & Hcm & Hrm & Hfm & Hom).
  rewrite Ho, Hc, Hrid, Hfid. repeat split; try done.
  destruct Hp as [(_ & -> & _)|(l & _ & _ & -> & _)]; rewrite Hpm.
  - exists []. by rewrite app_nil_r.
  - eauto.
Qed.

(** X4: a render settles the memo: rendered again with the same Original
    and no [reset] or [refresh] in between, the hook returns the same
    snapshot, the same [originalStr] and the same root proxy, and only
    the counter moves. *)
Theorem render_is_stable (original : value) (w w' : world) (m m' : memo) :
  render original w m = Returns (w', m') ->
  render original w' m' = Returns (bump (bump w'), m').
Proof.
  intros Hr.
  destruct (render_returns _ _ _ _ _ Hr)
    as (ws & wm & _ & _ & _ & _ & _ & _ & Hso & Hos & Hsr & Hmod & Hsf & _).
  destruct (render_keeps _ _ _ _ _ Hr) as (Hrid & Hfid & _).
  unfold render. cbv zeta.
  rewrite (proj2 (strict_eq_true original (seen_original m')) (eq_sym Hso)).
  cbn [obind fst snd]. rewrite text_eqb_refl.
  rewrite Hrid, Hsr, Nat.eqb_refl. cbn [andb obind fst snd].
  rewrite (proj2 (strict_eq_true (model m') (model m')) eq_refl).
  rewrite Hfid, Hsf, Nat.eqb_refl. cbn [andb obind fst snd].
  destruct m'. simpl in *. by subst.
Qed.

Lemma render_is_stable_witness :
  render (VRef 1) (fst swapped_ba) (snd swapped_ba)
  = Returns (bump (bump (fst swapped_ba)), snd swapped_ba).
Proof.
  apply (render_is_stable (VRef 1) (fst mounted_ab) (fst swapped_ba)
           (snd mounted_ab) (snd swapped_ba)).
  vm_compute. reflexivity.
Defined.

(** X5: a render keeps the root proxy exactly when it keeps the snapshot
    and the refresh trigger is the one seen before; otherwise the root
    proxy is a new one on the snapshot with an empty cache, so that every
    child proxy handed out before is left behind. *)
Theorem root_proxy_memo (original : value) (w w' : world) (m m' : memo) :
  (proxy m < length (proxies w))%nat ->
  render original w m = Returns (w', m') ->
  (proxy m' = proxy m <-> model m' = model m /\ refreshId w = seen_refreshId m)
  /\ (proxy m' = proxy m -> proxies w' = proxies w)
  /\ (proxy m' <> proxy m ->
      exists l, model m' = VRef l
                /\ proxy m' = length (proxies w)
                /\ proxies w' = proxies w ++ [{| target := l; getMap := ∅ |}]).
Proof.
  intros Hpx Hr.
  destruct (render_returns _ _ _ _ _ Hr)
    as (ws & wm & Es & Em & _ & _ & _ & _ & _ & _ & _ & Hmod & _ & Hp).
  assert (Hpm : proxies (fst wm) = proxies w).
  { assert (Hps : proxies (fst ws) = proxies w).
    { destruct (strict_eq original (seen_original m)).
      - by injection Es as <-.
      - by destruct (compute_originalStr_keeps _ _ _ Es) as (? & _). }
    destruct (_ && _ && _).
    - by injection Em as <-.
    - destruct (compute_model_keeps _ _ _ Em) as (E1 & _). congruence. }
  rewrite Hmod. rewrite Hpm in Hp.
  destruct Hp as [(E1 & E2 & E3 & E4)|(l & E1 & E2 & E3 & E4)].
  - split; [done|]. split; [done|]. intros Hne. done.
  - split; [|split].
    + split; [intros E; lia|]. intros [Ea Eb]. by destruct E4.
    + intros E. lia.
    + intros _. eauto.
Qed.

Lemma root_proxy_memo_witness :
  proxy (snd swapped_ba) <> proxy (snd mounted_ab)
  /\ proxies (fst swapped_ba) !! proxy (snd swapped_ba)
     = Some {| target := 3; getMap := ∅ |}.
Proof.
  destruct (root_proxy_memo (VRef 1) (fst mounted_ab) (fst swapped_ba)
              (snd mounted_ab) (snd swapped_ba)) as (Hiff & _ & Hnew).
  - vm_compute. lia.
  - vm_compute. reflexivity.
  - assert (Hne : proxy (snd swapped_ba) <> proxy (snd mounted_ab)).
    { intros E. apply Hiff in E as [E _]. vm_compute in E. discriminate E. }
    split; [exact Hne|]. vm_compute. reflexivity.
Defined.

(** ** Trigger ids *)

Section Triggers.
Context `{Runtime}.

Lemma proxy_get_ids (p : pid) (prop : string) (w : world) :
  counter (fst (proxy_get p prop w)) = counter w
  /\ resetId (fst (proxy_get p prop w)) = resetId w
  /\ refreshId (fst (proxy_get p prop w)) = refreshId w.
Proof.
  unfold proxy_get. destruct (proxies w !! p) as [pr|] eqn:Hp; [|auto].
  destruct (getMap pr !! "hasOwnProperty"); [auto|].
  destruct (getMap pr !! prop); [auto|].
  destruct (get_prop (objects w) (target pr) prop); simpl; auto.
  destruct (String.eqb prop "__proto__"); simpl; [auto|].
  unfold cache. simpl. by rewrite (lookup_app_l_Some _ _ _ _ Hp).
Qed.

Lemma proxy_set_ids (p : pid) (prop : string) (item : value) (w : world) :
  (refreshId w <= counter w)%nat ->
  (refreshId (fst (proxy_set p prop item w)) <= counter (fst (proxy_set p prop item w)))%nat.
Proof.
  intros Hf. unfold proxy_set. destruct (proxies w !! p) as [pr|]; [|done].
  destruct (strict_eq _ item); [done|]. cbv zeta.
  destruct (uncache_keeps p prop w) as (_ & Hc & _ & Hr & _).
  destruct (normalize item _) as [[h1 v]|]; simpl; [|by rewrite Hc, Hr].
  destruct (set_prop h1 (target pr) prop v); simpl; [lia|by rewrite Hc, Hr].
Qed.

Lemma call_wrapper_ids (f : wid) (args : list value) (w : world) :
  (refreshId w <= counter w)%nat ->
  (refreshId (fst (call_wrapper f args w)) <= counter (fst (call_wrapper f args w)))%nat
  /\ (counter w <= counter (fst (call_wrapper f args w)))%nat
  /\ resetId (fst (call_wrapper f args w)) = resetId w.
Proof.
  intros Hf. unfold call_wrapper. destruct (wrappers w !! f) as [wr|]; [|auto].
  destruct (JSON_stringify (objects w) _) as [before|]; [|auto].
  destruct (invoke _ _ args (objects w)) as [h1 [result|]]; simpl; [|auto].
  destruct (JSON_stringify h1 _) as [after|]; [|auto].
  destruct (text_eqb after before); simpl; auto.
Qed.

Lemma reachable_ids (w : world) (m : memo) : reachable w m -> ids_bounded w m.
Proof.
  unfold ids_bounded.
  induction 1 as [original w w' m Hh Hv Hm|original w w' m m' _ IH Hr|p prop w m _ IH
                 |p prop item w m _ IH|f args w m _ IH|w m _ IH|w m _ IH].
  - revert Hm. unfold mount. cbv zeta.
    destruct (compute_originalStr original _) as [ws|] eqn:Es; simpl; [|done].
    destruct (compute_originalStr_keeps _ _ _ Es) as (_ & _ & Hcs & Hrs & Hfs & _).
    destruct (compute_model _ _) as [wm|] eqn:Em; simpl; [|done].
    destruct (compute_model_keeps _ _ _ Em) as (_ & _ & Hcm & Hrm & Hfm & _).
    destruct (createProxy _ _) as [wp|] eqn:Ep; simpl; [|done].
    destruct (createProxy_keeps _ _ _ Ep) as (_ & _ & _ & _ & Hr & Hf & Hc).
    intros [= <- <-]. simpl in *.
    rewrite Hr, Hf, Hc, Hrm, Hfm, Hcm, Hrs, Hfs, Hcs. lia.
  - destruct (render_keeps _ _ _ _ _ Hr) as (Hrid & Hfid & Hc & _).
    destruct (render_returns _ _ _ _ _ Hr)
      as (_ & _ & _ & _ & _ & _ & _ & _ & _ & _ & Hsr & _ & Hsf & _).
    rewrite Hrid, Hfid, Hc, Hsr, Hsf. lia.
  - destruct (proxy_get_ids p prop w) as (-> & -> & ->). done.
  - destruct (proxy_set_grows p prop item w) as (_ & Hc & ->).
    pose proof (proxy_set_ids p prop item w). lia.
  - destruct (call_wrapper_ids f args w) as (? & ? & ->); lia.
  - simpl. lia.
  - simpl. lia.
Qed.

End Triggers.

Section TriggersSeen.
Context `{LawfulRuntime}.

(** X6: in every state of a mounted hook the trigger ids in use were drawn
    from the counter, so no [reset()] and no [refresh()] is lost: the
    render after [reset()] returns another snapshot and another root
    proxy, the render after [refresh()] another root proxy. *)
Theorem triggers_are_never_lost (w : world) (m : memo) :
  reachable w m ->
  ids_bounded w m
  /\ forall (original : value) (w' : world) (m' : memo),
       (render original (reset w) m = Returns (w', m') ->
        model m' <> model m /\ proxy m' <> proxy m)
       /\ (render original (refresh w) m = Returns (w', m') ->
           proxy m' <> proxy m).
Proof.
  intros Hreach. pose proof (reachable_ids w m Hreach) as Hids.
  split; [done|]. destruct Hids as (_ & _ & Hsr & Hsf).
  destruct (reachable_inv w m Hreach) as (_ & _ & _ & (l0 & Hm & Hl0) & _ & _ & Hpx & _).
  intros original w' m'. split; intros Hr.
  - destruct (render_returns _ _ _ _ _ Hr)
      as (ws & wm & Es & Em & _ & _ & _ & _ & _ & _ & _ & Hmod & _ & Hp).
    assert (En : Nat.eqb (resetId (reset w)) (seen_resetId m) = false).
    { apply Nat.eqb_neq. simpl. lia. }
    rewrite En, andb_false_r in Em.
    assert (Hws : proxies (fst ws) = proxies w
                  /\ exists ext, objects (fst ws) = objects w ++ ext).
    { destruct (strict_eq original (seen_original m)).
      - injection Es as <-. simpl. split; [done|]. exists []. by rewrite app_nil_r.
      - destruct (compute_originalStr_keeps _ _ _ Es) as (? & _ & _ & _ & _ & ?). auto. }
    destruct Hws as (Hps & ext & Hext).
    destruct (compute_model_keeps _ _ _ Em) as (Hpm & _ & _ & _ & _ & j & _ & _ & Ewm).
    assert (Hfresh : forall l, snd wm = VRef l -> (length (objects w) <= l)%nat).
    { intros l El. rewrite Ewm in El. apply build_ref_fresh in El as [Hle _].
      rewrite Hext, length_app in Hle. lia. }
    rewrite Hmod.
    destruct Hp as [(_ & _ & E & _)|(l & El & Ep & _)].
    + rewrite E, Hm in Hfresh. specialize (Hfresh l0 eq_refl). lia.
    + split.
      * rewrite El, Hm. intros [= ->]. specialize (Hfresh l0 El). lia.
      * rewrite Ep, Hpm, Hps. lia.
  - destruct (render_returns _ _ _ _ _ Hr)
      as (ws & wm & Es & Em & _ & _ & _ & _ & _ & _ & _ & _ & _ & Hp).
    assert (Hpm : proxies (fst wm) = proxies w).
    { assert (Hps : proxies (fst ws) = proxies w).
      { destruct (strict_eq original (seen_original m)).
        - by injection Es as <-.
        - by destruct (compute_originalStr_keeps _ _ _ Es) as (? & _). }
      destruct (_ && _ && _).
      - by injection Em as <-.
      - destruct (compute_model_keeps _ _ _ Em) as (E1 & _). congruence. }
    destruct Hp as [(_ & _ & _ & E)|(l & _ & Ep & _)].
    + simpl in E. lia.
    + rewrite Ep, Hpm. lia.
Qed.

End TriggersSeen.

Lemma triggers_are_never_lost_witness :
  ids_bounded (fst mounted_ab) (snd mounted_ab)
  /\ forall (original : value) (w' : world) (m' : memo),
       (render original (reset (fst mounted_ab)) (snd mounted_ab) = Returns (w', m') ->
        model m' <> model (snd mounted_ab) /\ proxy m' <> proxy (snd mounted_ab))
       /\ (render original (refresh (fst mounted_ab)) (snd mounted_ab) = Returns (w', m') ->
           proxy m' <> proxy (snd mounted_ab)).
Proof.
  apply (triggers_are_never_lost (H := sample_runtime) (H0 := sample_runtime_lawful)).
  apply (reach_mount (H := sample_runtime) (VRef 0) caller_world).
  - reflexivity.
  - intros p pr k q Hp. destruct p; discriminate Hp.
  - vm_compute. reflexivity.
Defined.

(** ** Reads and writes *)

Section ReadsAndWrites.
Context `{Runtime}.



Lemma normalize_scalar (item : value) (h : heap) :
  is_scalar item = true -> normalize item h = Returns (h, item).
Proof.
  intros Hi. unfold normalize.
  destruct item; try done; by rewrite stringify_scalar.
Qed.




End ReadsAndWrites.


(** ** Writing a value and writing the old one back *)

Lemma assoc_Some_In {A} (k : string) (fs : list (string * A)) (v : A) :
  assoc k fs = Some v -> In k (map fst fs).
Proof.
  induction fs as [|[k' v'] fs IH]; simpl; [done|].
  destruct (String.eqb k k') eqn:E; [|auto].
  apply String.eqb_eq in E. auto.
Qed.

Lemma put_field_present {A} (k : string) (v : A) (fs : list (string * A)) (old : A) :
  canonical fs = true -> assoc k fs = Some old ->
  put_field k old (put_field k v fs) = fs
  /\ map fst (put_field k v fs) = map fst fs.
Proof.
  unfold canonical. induction fs as [|[k' v'] fs IH]; simpl; [done|].
  rewrite andb_true_iff. intros [Hk' Hord].
  destruct (String.eqb k k') eqn:E.
  - apply String.eqb_eq in E. subst k'. intros [= ->]. simpl.
    by rewrite String.eqb_refl.
  - intros Ha.
    assert (Hcb : comes_before k k' = false).
    { rewrite forallb_forall in Hk'. specialize (Hk' k (assoc_Some_In _ _ _ Ha)).
      apply andb_true_iff in Hk' as [_ Hcb]. by apply negb_true_iff in Hcb. }
    rewrite Hcb. simpl. rewrite E, Hcb.
    destruct (IH Hord Ha) as [-> ->]. done.
Qed.

Section WriteBack.
Context `{Runtime}.

(** X9: a property of an ordinary object, under a key other than
    __proto__, holds a value that its JSON round trip leaves as it is; a
    value that is no object and whose round trip differs from the held one
    is written, and then the held one is written back: both writes succeed
    and notify, the object is again what it was, and [isDirty()] answers
    as before the two writes. *)
Theorem write_back_restores
  (p : pid) (prop : string) (old item : value) (w : world) (pr : proxy_rec)
  (fs : list (string * value)) (h1 : heap) (v : value) :
  proxies w !! p = Some pr ->
  objects w !! target pr = Some (ORec fs) ->
  canonical fs = true ->
  prop <> "__proto__" ->
  assoc prop fs = Some old ->
  (forall h, normalize old h = Returns (h, old)) ->
  (forall l, item <> VRef l) ->
  old <> item ->
  normalize item (objects w) = Returns (h1, v) ->
  v <> old ->
  snd (proxy_set p prop item w) = Returns true
  /\ snd (proxy_set p prop old (fst (proxy_set p prop item w))) = Returns true
  /\ objects (fst (proxy_set p prop old (fst (proxy_set p prop item w)))) = h1
  /\ h1 !! target pr = Some (ORec fs)
  /\ (exists ext, h1 = objects w ++ ext)
  /\ counter (fst (proxy_set p prop old (fst (proxy_set p prop item w))))
     = S (S (counter w))
  /\ (forall m b, isDirty w m = Returns b ->
        isDirty (fst (proxy_set p prop old (fst (proxy_set p prop item w)))) m
        = Returns b).
Proof.
  intros Hp Ho Hc Hproto Ha Hs _ Hne Hn Hv.
  destruct (normalize_grows _ _ _ _ Hn) as (ext & ->).
  pose proof (lookup_app_l_Some _ ext _ _ Ho) as Ho1.
  assert (Hget : get_prop (objects w) (target pr) prop = old).
  { unfold get_prop. by rewrite Ho, Ha. }
  destruct (uncache_keeps p prop w) as (Hou & Hcu & _).
  set (h2 := <[target pr := ORec (put_field prop v fs)]> (objects w ++ ext)).
  assert (E1 : proxy_set p prop item w
               = (refresh (with_objects h2 (uncache p prop w)), Returns true)).
  { unfold proxy_set. rewrite Hp, Hget, (proj2 (strict_eq_false _ _) Hne). cbv zeta.
    rewrite Hou, Hn. unfold set_prop. by rewrite Ho1, (assign_field_put _ _ _ Hproto). }
  rewrite E1. cbn [fst snd].
  set (w1 := refresh (with_objects h2 (uncache p prop w))).
  assert (Hp1 : proxies w1 !! p
                = Some {| target := target pr; getMap := delete prop (getMap pr) |}).
  { apply (uncache_lookup p prop w pr Hp). }
  assert (Ho2 : h2 !! target pr = Some (ORec (put_field prop v fs))).
  { apply list_lookup_insert_eq. by eapply lookup_lt_Some. }
  assert (Hget1 : get_prop (objects w1) (target pr) prop = v).
  { unfold get_prop. simpl. by rewrite Ho2, assoc_put_field. }
  destruct (uncache_keeps p prop w1) as (Hou1 & Hcu1 & _).
  assert (E2 : proxy_set p prop old w1
               = (refresh (with_objects (objects w ++ ext) (uncache p prop w1)),
                  Returns true)).
  { unfold proxy_set. rewrite Hp1. cbn [target]. rewrite Hget1.
    rewrite (proj2 (strict_eq_false _ _) Hv). cbv zeta.
    rewrite Hou1, (Hs _). unfold set_prop. simpl.
    rewrite Ho2, (assign_field_put _ _ _ Hproto).
    destruct (put_field_present prop v fs old Hc Ha) as [-> _].
    unfold h2. rewrite list_insert_insert_eq, list_insert_id by done. done. }
  rewrite E2. cbn [fst snd]. simpl. rewrite Hcu1. simpl. rewrite Hcu.
  repeat split; try done; [eauto|].
  intros m b. unfold isDirty. simpl.
  destruct (JSON_stringify (objects w) (model m)) as [t|] eqn:Et; [|done].
  by rewrite (stringify_extend _ ext _ _ Et).
Qed.

End WriteBack.

Lemma write_back_restores_witness :
  snd (proxy_set (H := sample_runtime) 0 "a" (VNum 5) (fst mounted_ab)) = Returns true
  /\ snd (proxy_set (H := sample_runtime) 0 "a" (VNum 1) edited_ab) = Returns true
  /\ objects (fst (proxy_set (H := sample_runtime) 0 "a" (VNum 1) edited_ab))
     = objects (fst mounted_ab)
  /\ isDirty (fst (proxy_set (H := sample_runtime) 0 "a" (VNum 1) edited_ab))
       (snd mounted_ab) = Returns false.
Proof.
  destruct (write_back_restores (H := sample_runtime) 0 "a" (VNum 1) (VNum 5)
              (fst mounted_ab) root_proxy_ab [("a", VNum 1); ("b", VNum 2)]
              (objects (fst mounted_ab)) (VNum 5))
    as (H1 & H2 & H3 & _ & _ & _ & H4).
  - vm_compute. reflexivity.
  - vm_compute. reflexivity.
  - reflexivity.
  - discriminate.
  - reflexivity.
  - intros h. apply (normalize_scalar (VNum 1) h). reflexivity.
  - discriminate.
  - discriminate.
  - vm_compute. reflexivity.
  - discriminate.
  - change edited_ab
      with (fst (proxy_set (H := sample_runtime) 0 "a" (VNum 5) (fst mounted_ab))).
    split; [exact H1|]. split; [exact H2|]. split; [exact H3|].
    apply H4. vm_compute. reflexivity.
Defined.

(** ** A written object is stored as a copy *)

Lemma value_above_le (k k' : nat) (v : value) :
  (k' <= k)%nat -> value_above k v = true -> value_above k' v = true.
Proof.
  destruct v; simpl; try done. rewrite !Nat.leb_le. lia.
Qed.

Lemma obj_above_le (k k' : nat) (o : obj) :
  (k' <= k)%nat -> obj_above k o = true -> obj_above k' o = true.
Proof.
  intros Hle. destruct o as [fs|es named]; simpl; rewrite !forallb_forall;
    intros Ho x Hx; eapply value_above_le; eauto.
Qed.

Lemma put_field_values {A} (P : A -> bool) (k : string) (v : A) (fs : list (string * A)) :
  P v = true -> forallb (fun kv => P (snd kv)) fs = true ->
  forallb (fun kv => P (snd kv)) (put_field k v fs) = true.
Proof.
  intros Hv. induction fs as [|[k' v'] fs IH]; simpl; [by rewrite Hv|].
  rewrite andb_true_iff. intros [Hv' Hfs].
  destruct (String.eqb k k'); simpl; [by rewrite Hv, Hfs|].
  destruct (comes_before k k'); simpl; [by rewrite Hv, Hv', Hfs|].
  by rewrite Hv', IH.
Qed.

Lemma build_items_grows (js : list json) (h : heap) :
  exists ext, fst (build_items build js h) = h ++ ext.
Proof.
  destruct (build_items_back js (proj2 (Forall_forall _ _) (fun x _ => build_back x)) h)
    as (e & E & _). eauto.
Qed.

Lemma build_members_grows (kvs : list (string * json)) (h : heap)
  (acc : list (string * value)) :
  exists ext, fst (build_members build kvs h acc) = h ++ ext.
Proof.
  destruct (build_members_back kvs
              (proj2 (Forall_forall _ _) (fun x _ => build_back (snd x))) h acc)
    as (e & E & _). eauto.
Qed.

Lemma build_items_above (js : list json) :
  Forall builds_above js ->
  forall (h ext : heap),
    fst (build_items build js h) = h ++ ext ->
    forallb (value_above (length h)) (snd (build_items build js h)) = true
    /\ forallb (obj_above (length h)) ext = true.
Proof.
  induction 1 as [|j js Hj _ IH]; intros h ext; simpl.
  - intros E. apply (f_equal length) in E. rewrite length_app in E.
    destruct ext; [done|simpl in E; lia].
  - destruct (build_grows j h) as (e1 & E1). specialize (Hj h e1 E1).
    destruct (build j h) as [h1 v]. simpl in E1, Hj. subst h1.
    destruct (build_items_grows js (h ++ e1)) as (e2 & E2).
    specialize (IH (h ++ e1) e2 E2).
    destruct (build_items build js (h ++ e1)) as [h2 vs]. simpl in E2, IH |- *.
    subst h2. rewrite <- app_assoc. intros E. apply app_inv_head in E. subst ext.
    destruct Hj as [Hv He1]. destruct IH as [Hvs He2].
    rewrite Hv, forallb_app, He1. simpl. split.
    + rewrite forallb_forall in Hvs |- *. intros x Hx.
      apply (value_above_le (length (h ++ e1))); [rewrite length_app; lia|auto].
    + rewrite forallb_forall in He2 |- *. intros x Hx.
      apply (obj_above_le (length (h ++ e1))); [rewrite length_app; lia|auto].
Qed.

Lemma build_members_above (kvs : list (string * json)) :
  Forall (fun kx => builds_above (snd kx)) kvs ->
  forall (k0 : nat) (h ext : heap) (acc : list (string * value)),
    (k0 <= length h)%nat ->
    fst (build_members build kvs h acc) = h ++ ext ->
    forallb (fun kv => value_above k0 (snd kv)) acc = true ->
    forallb (fun kv => value_above k0 (snd kv)) (snd (build_members build kvs h acc)) = true
    /\ forallb (obj_above k0) ext = true.
Proof.
  induction 1 as [|[k j] kvs Hj _ IH]; intros k0 h ext acc Hk0; simpl.
  - intros E Hacc. apply (f_equal length) in E. rewrite length_app in E.
    destruct ext; [done|simpl in E; lia].
  - simpl in Hj. destruct (build_grows j h) as (e1 & E1). specialize (Hj h e1 E1).
    destruct (build j h) as [h1 v]. simpl in E1, Hj. subst h1.
    destruct Hj as [Hv He1].
    destruct (build_members_grows kvs (h ++ e1) (put_field k v acc)) as (e2 & E2).
    intros E Hacc. rewrite E2 in E. rewrite <- app_assoc in E.
    apply app_inv_head in E. subst ext.
    destruct (IH k0 (h ++ e1) e2 (put_field k v acc)) as [Hfs He2].
    + rewrite length_app. lia.
    + done.
    + apply put_field_values; [|done]. by apply (value_above_le (length h)).
    + split; [done|]. rewrite forallb_app, He2, andb_true_r.
      rewrite forallb_forall in He1 |- *. intros x Hx.
      apply (obj_above_le (length h)); auto.
Qed.

Lemma build_above (j : json) : builds_above j.
Proof.
  induction j as [| | | |js IH|kvs IH] using json_nested_ind; intros h ext;
    try (simpl; intros E; apply (f_equal length) in E; rewrite length_app in E;
         split; [done|]; destruct ext; [done|simpl in E; lia]).
  - simpl. destruct (build_items_grows js h) as (e & E).
    destruct (build_items_above js IH h e E) as [Hvs He].
    destruct (build_items build js h) as [h1 vs]. simpl in E, Hvs |- *. subst h1.
    rewrite <- app_assoc. intros E. apply app_inv_head in E. subst ext.
    rewrite length_app, forallb_app, He. simpl. rewrite Hvs.
    split; [apply Nat.leb_le; lia|done].
  - simpl. destruct (build_members_grows kvs h []) as (e & E).
    destruct (build_members_above kvs IH (length h) h e [] (le_n _) E eq_refl) as [Hfs He].
    destruct (build_members build kvs h []) as [h1 fs]. simpl in E, Hfs |- *. subst h1.
    rewrite <- app_assoc. intros E. apply app_inv_head in E. subst ext.
    rewrite length_app, forallb_app, He. simpl. rewrite Hfs.
    split; [apply Nat.leb_le; lia|done].
Qed.




Section WriteCopy.
Context `{Runtime}.




End WriteCopy.


(** ** Field paths and their parents *)

Lemma string_app_cons (x : ascii) (a b : string) :
  (String x a ++ b = String x (a ++ b))%string.
Proof. reflexivity. Qed.

Lemma string_app_assoc (a b c : string) : ((a ++ b) ++ c = a ++ (b ++ c))%string.
Proof.
  induction a as [|x a IH]; [done|]. rewrite !string_app_cons. by rewrite IH.
Qed.

Lemma string_app_nil_r (a : string) : (a ++ "" = a)%string.
Proof. induction a as [|x a IH]; [done|]. rewrite string_app_cons. by rewrite IH. Qed.

Lemma prefix_app (a b : string) : String.prefix a (a ++ b) = true.
Proof.
  induction a as [|x a IH]; [by destruct b|]. rewrite string_app_cons. simpl.
  destruct (ascii_dec x x); [done|congruence].
Qed.

Lemma prefix_app_l (a b s : string) :
  String.prefix (a ++ b) s = true -> String.prefix a s = true.
Proof.
  revert s. induction a as [|x a IH]; intros s; [by destruct s|].
  rewrite string_app_cons. destruct s as [|y s]; simpl; [done|].
  destruct (ascii_dec x y); [apply IH|done].
Qed.

Lemma matches_parent (p sep r : string) (e : ValidationError) :
  sep = "." \/ sep = "[" ->
  matches (p ++ sep ++ r) e = true ->
  String.prefix (p ++ sep) (field e) = true.
Proof.
  intros Hsep. unfold matches. rewrite andb_true_iff, !orb_true_iff.
  intros [_ [[He|Hd]|Hb]].
  - apply String.eqb_eq in He. rewrite He, <- string_app_assoc. apply prefix_app.
  - apply (prefix_app_l _ (r ++ ".")).
    by rewrite !string_app_assoc in *.
  - apply (prefix_app_l _ (r ++ "[")).
    by rewrite !string_app_assoc in *.
Qed.

Lemma filter_sublist {A} (f : A -> bool) (l : list A) : sublist (List.filter f l) l.
Proof.
  induction l as [|x l IH]; simpl; [constructor|].
  destruct (f x); by constructor.
Qed.

Lemma filter_sublist_impl {A} (f g : A -> bool) (l : list A) :
  (forall x, f x = true -> g x = true) ->
  sublist (List.filter f l) (List.filter g l).
Proof.
  intros Hfg. induction l as [|x l IH]; simpl; [constructor|].
  destruct (f x) eqn:Ef.
  - rewrite (Hfg x Ef). by constructor.
  - destruct (g x); [by constructor|done].
Qed.

(** X11: the errors [findErrors] returns for a path are, in order, among
    those it returns for the parent path and among all errors, whether the
    path continues its parent with a dot or with a bracket; and the field
    of every error returned for a path starts with that path. *)
Theorem findErrors_parent_path
  (validator : heap -> value -> checked) (w : world) (m : memo) (p r : string) :
  sublist (findErrors validator (Some (p ++ "." ++ r)%string) w m)
          (findErrors validator (Some p) w m)
  /\ sublist (findErrors validator (Some (p ++ "[" ++ r)%string) w m)
             (findErrors validator (Some p) w m)
  /\ sublist (findErrors validator (Some p) w m) (findErrors validator None w m)
  /\ (forall e, In e (findErrors validator (Some p) w m) ->
                String.prefix p (field e) = true).
Proof.
  assert (Hchild : forall sep, sep = "." \/ sep = "[" ->
            sublist (findErrors validator (Some (p ++ sep ++ r)%string) w m)
                    (findErrors validator (Some p) w m)).
  { intros sep Hsep. unfold findErrors.
    destruct (validator (objects w) (model m)) as [|all]; [constructor|].
    assert (Hne : String.eqb (p ++ sep ++ r)%string "" = false).
    { destruct p; simpl; [|done]. by destruct Hsep as [-> | ->]. }
    rewrite Hne. destruct (String.eqb p "") eqn:Ep; [apply filter_sublist|].
    apply filter_sublist_impl. intros e He.
    pose proof (matches_parent p sep r e Hsep He) as Hpre.
    unfold matches in *. apply andb_true_iff in He as [-> _]. simpl.
    destruct (String.eqb (field e) p); [done|]. simpl.
    destruct Hsep as [-> | ->]; rewrite Hpre; [reflexivity|apply orb_true_r]. }
  split; [apply Hchild; auto|]. split; [apply Hchild; auto|].
  unfold findErrors. destruct (validator (objects w) (model m)) as [|all].
  - split; [constructor|done].
  - destruct (String.eqb p "") eqn:Ep.
    + apply String.eqb_eq in Ep. subst p. split; [reflexivity|].
      intros e _. by destruct (field e).
    + split; [apply filter_sublist|]. intros e He.
      apply filter_In in He as [_ He]. unfold matches in He.
      apply andb_true_iff in He as [_ He]. rewrite !orb_true_iff in He.
      destruct He as [[He|He]|He].
      * apply String.eqb_eq in He. rewrite He.
        rewrite <- (string_app_nil_r p) at 2. apply prefix_app.
      * by apply (prefix_app_l p ".").
      * by apply (prefix_app_l p "[").
Qed.

(** ** The invariant and what it gives *)

Section InvariantUse.
Context `{LawfulRuntime}.

(** X12: every state a mounted hook passes through (renders, reads,
    writes, method calls of a lawful environment, [reset], [refresh])
    keeps the invariant: the snapshot and the root proxy exist,
    [originalStr] is the well-formed text of an object, every cached child
    proxy exists; and in such a state a render with the Original seen
    before does not throw. *)
Theorem mounted_hook_invariant (w : world) (m : memo) :
  reachable w m ->
  hook_inv w m
  /\ exists (w' : world) (m' : memo),
       render (seen_original m) w m = Returns (w', m').
Proof.
  intros Hreach. pose proof (reachable_inv w m Hreach) as Hinv.
  split; [done|].
  destruct Hinv as (_ & _ & Ot & (l0 & Hm & _) & _).
  unfold render. cbv zeta.
  rewrite (proj2 (strict_eq_true _ _) eq_refl). cbn [obind fst snd].
  rewrite text_eqb_refl. cbn [andb].
  destruct (Nat.eqb (resetId w) (seen_resetId m)); cbn [obind fst snd].
  - rewrite (proj2 (strict_eq_true _ _) eq_refl). cbn [andb].
    destruct (Nat.eqb (refreshId w) (seen_refreshId m)); cbn [obind fst snd];
      [eauto|]. rewrite Hm. simpl. eauto.
  - destruct (originalStr m) as [j|] eqn:Ej; [|done].
    destruct (build_object_ref j (objects w) Ot) as (l & Hl).
    unfold compute_model. simpl. rewrite Hl.
    destruct (strict_eq (VRef l) (model m) && _); simpl; eauto.
Qed.

End InvariantUse.

Lemma mounted_hook_invariant_witness :
  hook_inv edited_ab (snd mounted_ab)
  /\ exists (w' : world) (m' : memo),
       render (seen_original (snd mounted_ab)) edited_ab (snd mounted_ab)
       = Returns (w', m').
Proof.
  apply (mounted_hook_invariant (H := sample_runtime) (H0 := sample_runtime_lawful)).
  change edited_ab
    with (fst (proxy_set (H := sample_runtime) 0 "a" (VNum 5) (fst mounted_ab))).
  apply (reach_set (H := sample_runtime)).
  apply (reach_mount (H := sample_runtime) (VRef 0) caller_world).
  - reflexivity.
  - intros p pr k q Hp. destruct p; discriminate Hp.
  - vm_compute. reflexivity.
Defined.

(** ** Writing through a child proxy *)

Section NestedWrite.
Context `{Runtime}.



End NestedWrite.


(** ** Editing a flat snapshot *)

Lemma ser_fields_flat (n : nat) (h : heap) (fs : list (string * value)) :
  flat fs = true ->
  ser_fields (ser (S n) h) fs
  = Returns (map (fun kv => (fst kv, json_of_scalar (snd kv))) fs).
Proof.
  unfold flat. induction fs as [|[k v] fs IH]; simpl; [done|].
  rewrite andb_true_iff. intros [Hv Hfs]. rewrite (IH Hfs), ser_S.
  by destruct v.
Qed.

Lemma stringify_flat (h : heap) (l : loc) (fs : list (string * value)) :
  h !! l = Some (ORec fs) -> flat fs = true ->
  JSON_stringify h (VRef l)
  = Returns (Some (JObj (map (fun kv => (fst kv, json_of_scalar (snd kv))) fs))).
Proof.
  intros Hl Hf. unfold JSON_stringify. rewrite ser_S, Hl.
  assert (Hlen : exists n, length h = S n).
  { apply lookup_lt_Some in Hl. destruct (length h); [lia|eauto]. }
  destruct Hlen as (n & ->). by rewrite (ser_fields_flat n h fs Hf).
Qed.

Lemma json_of_scalar_inj (a b : value) :
  is_scalar a = true -> is_scalar b = true ->
  json_of_scalar a = json_of_scalar b -> a = b.
Proof. destruct a, b; simpl; try done; congruence. Qed.

Lemma assoc_map_json (k : string) (fs : list (string * value)) :
  assoc k (map (fun kv => (fst kv, json_of_scalar (snd kv))) fs)
  = json_of_scalar <$> assoc k fs.
Proof.
  induction fs as [|[k' v'] fs IH]; simpl; [done|].
  by destruct (String.eqb k k').
Qed.

Section FlatEdit.
Context `{Runtime}.

(** X15: on a clean snapshot that is an ordinary object of scalars, a
    write through the root proxy, under a key other than __proto__, of a
    scalar other than the one the property holds makes [isDirty()] true.
    Both scalars are values that their JSON round trip leaves as they
    are. *)
Theorem flat_edit_makes_dirty
  (prop : string) (old item : value) (w : world) (m : memo) (pr : proxy_rec)
  (fs : list (string * value)) :
  proxies w !! proxy m = Some pr ->
  model m = VRef (target pr) ->
  objects w !! target pr = Some (ORec fs) ->
  flat fs = true ->
  prop <> "__proto__" ->
  assoc prop fs = Some old ->
  is_scalar item = true ->
  normalize old (objects w) = Returns (objects w, old) ->
  normalize item (objects w) = Returns (objects w, item) ->
  old <> item ->
  isDirty w m = Returns false ->
  snd (proxy_set (proxy m) prop item w) = Returns true
  /\ isDirty (fst (proxy_set (proxy m) prop item w)) m = Returns true.
Proof.
  intros Hp Hm Ho Hf Hproto Ha Hi _ Hn Hne Hclean.
  assert (Hget : get_prop (objects w) (target pr) prop = old).
  { unfold get_prop. by rewrite Ho, Ha. }
  destruct (uncache_keeps (proxy m) prop w) as (Hou & _).
  set (fs' := put_field prop item fs).
  set (h2 := <[target pr := ORec fs']> (objects w)).
  assert (E : proxy_set (proxy m) prop item w
              = (refresh (with_objects h2 (uncache (proxy m) prop w)), Returns true)).
  { unfold proxy_set. rewrite Hp, Hget, (proj2 (strict_eq_false _ _) Hne). cbv zeta.
    rewrite Hou, Hn. unfold set_prop.
    by rewrite Ho, (assign_field_put _ _ _ Hproto). }
  rewrite E. split; [done|]. cbn [fst].
  assert (Hf' : flat fs' = true).
  { unfold flat, fs'. by apply (put_field_values is_scalar). }
  assert (Ho2 : h2 !! target pr = Some (ORec fs')).
  { apply list_lookup_insert_eq. by eapply lookup_lt_Some. }
  revert Hclean. unfold isDirty. cbn [objects refresh with_objects]. rewrite Hm.
  rewrite (stringify_flat _ _ _ Ho Hf), (stringify_flat _ _ _ Ho2 Hf').
  cbn [obind].
  set (t1 := Some (JObj (map (fun kv => (fst kv, json_of_scalar (snd kv))) fs))).
  set (t2 := Some (JObj (map (fun kv => (fst kv, json_of_scalar (snd kv))) fs'))).
  destruct (text_eqb t1 (originalStr m)) eqn:E1; [|intros E0; discriminate E0].
  intros _. apply text_eqb_eq in E1. rewrite <- E1.
  destruct (text_eqb t2 t1) eqn:E2; [|done]. exfalso.
  apply text_eqb_eq in E2. unfold t1, t2 in E2. injection E2 as Heq.
  apply (f_equal (assoc prop)) in Heq. rewrite !assoc_map_json in Heq.
  unfold fs' in Heq. rewrite assoc_put_field, Ha in Heq. simpl in Heq.
  injection Heq as Heq. apply json_of_scalar_inj in Heq; [congruence|done|].
  unfold flat in Hf. rewrite forallb_forall in Hf.
  clear -Ha Hf. induction fs as [|[k' v'] fs IH]; simpl in *; [done|].
  destruct (String.eqb prop k').
  - injection Ha as <-. apply (Hf (k', v')). auto.
  - apply IH; [|done]. intros x Hx. apply Hf. auto.
Qed.

End FlatEdit.

Lemma flat_edit_makes_dirty_witness :
  snd (proxy_set (H := sample_runtime) (proxy (snd mounted_ab)) "a" (VNum 5)
         (fst mounted_ab)) = Returns true
  /\ isDirty (fst (proxy_set (H := sample_runtime) (proxy (snd mounted_ab)) "a" (VNum 5)
                     (fst mounted_ab))) (snd mounted_ab) = Returns true.
Proof.
  apply (flat_edit_makes_dirty (H := sample_runtime) "a" (VNum 1) (VNum 5)
           (fst mounted_ab) (snd mounted_ab) root_proxy_ab
           [("a", VNum 1); ("b", VNum 2)]).
  - vm_compute. reflexivity.
  - vm_compute. reflexivity.
  - vm_compute. reflexivity.
  - reflexivity.
  - discriminate.
  - reflexivity.
  - reflexivity.
  - vm_compute. reflexivity.
  - vm_compute. reflexivity.
  - discriminate.
  - vm_compute. reflexivity.
Defined.

(** ** Reading what is not there *)



(** ** The serialization the snapshot is compared with *)

Lemma compute_originalStr_taken (original : value) (w : world) ws :
  compute_originalStr original w = Returns ws ->
  serialization_taken original (objects w) (snd ws)
  /\ exists ext, objects (fst ws) = objects w ++ ext
                 /\ forallb (obj_above (length (objects w))) ext = true.
Proof.
  unfold compute_originalStr, serialization_taken.
  destruct (truthy original).
  - destruct (JSON_stringify (objects w) original) as [t|] eqn:E; simpl; [|done].
    intros [= <-]. simpl. split; [done|]. exists []. by rewrite app_nil_r.
  - simpl. unfold JSON_stringify. rewrite ser_S.
    rewrite lookup_app_r, Nat.sub_diag by lia. simpl.
    intros [= <-]. simpl. split; [done|]. by exists [ORec []].
Qed.

Lemma mount_originalStr (original : value) (w w' : world) (m : memo) :
  mount original w = Returns (w', m) ->
  seen_original m = original
  /\ serialization_taken original (objects w) (originalStr m).
Proof.
  unfold mount. cbv zeta.
  destruct (compute_originalStr original _) as [ws|] eqn:Es; simpl; [|done].
  destruct (compute_model (snd ws) (fst ws)) as [wm|]; simpl; [|done].
  destruct (createProxy (snd wm) (fst wm)) as [wp|]; simpl; [|done].
  intros [= _ <-]. simpl. split; [done|].
  by destruct (compute_originalStr_taken _ _ _ Es).
Qed.

Lemma render_originalStr (original : value) (w w' : world) (m m' : memo) :
  render original w m = Returns (w', m') ->
  seen_original m' = original
  /\ (original = seen_original m -> originalStr m' = originalStr m)
  /\ (original <> seen_original m ->
      serialization_taken original (objects w) (originalStr m')).
Proof.
  intros Hr.
  destruct (render_returns _ _ _ _ _ Hr)
    as (ws & wm & Es & _ & _ & _ & _ & _ & Hso & Hos & _).
  split; [done|]. rewrite Hos. split.
  - intros Eo. apply strict_eq_true in Eo. rewrite Eo in Es. by injection Es as <-.
  - intros Hne. apply strict_eq_false in Hne. rewrite Hne in Es.
    by destruct (compute_originalStr_taken _ _ _ Es).
Qed.

(** A render kept the snapshot when neither trigger fired. *)
Lemma render_keeps_model (original : value) (w w' : world) (m m' : memo) :
  render original w m = Returns (w', m') ->
  original = seen_original m -> resetId w = seen_resetId m ->
  model m' = model m /\ objects w' = objects w /\ originalStr m' = originalStr m.
Proof.
  intros Hr Eo Er.
  destruct (render_returns _ _ _ _ _ Hr)
    as (ws & wm & Es & Em & Ho & _ & _ & _ & _ & Hos & _ & Hmod & _).
  apply strict_eq_true in Eo. apply Nat.eqb_eq in Er.
  rewrite Eo in Es, Em. injection Es as <-. simpl in Em.
  rewrite text_eqb_refl, Er in Em. simpl in Em. injection Em as <-.
  simpl in *. auto.
Qed.

(** A render after a trigger fired parses [originalStr] into objects that
    are all new and refer to new objects only. *)
Lemma render_derives (original : value) (w w' : world) (m m' : memo) :
  heap_wf (objects w) = true ->
  text_wf (originalStr m) = true ->
  render original w m = Returns (w', m') ->
  ~ (original = seen_original m /\ resetId w = seen_resetId m) ->
  exists ext,
    objects w' = objects w ++ ext
    /\ forallb (obj_above (length (objects w))) ext = true
    /\ value_above (length (objects w)) (model m') = true
    /\ JSON_stringify (objects w') (model m') = Returns (originalStr m').
Proof.
  intros Hh Wt Hr Hn.
  destruct (render_returns _ _ _ _ _ Hr)
    as (ws & wm & Es & Em & Ho & _ & _ & _ & _ & Hos & _ & Hmod & _).
  assert (Ec : text_eqb (snd ws) (originalStr m)
               && strict_eq original (seen_original m)
               && Nat.eqb (resetId w) (seen_resetId m) = false).
  { apply not_true_is_false. rewrite !andb_true_iff, strict_eq_true, Nat.eqb_eq.
    tauto. }
  rewrite Ec in Em.
  assert (Hws : text_wf (snd ws) = true
                /\ exists ext0, objects (fst ws) = objects w ++ ext0
                                /\ forallb (obj_above (length (objects w))) ext0 = true).
  { destruct (strict_eq original (seen_original m)).
    - injection Es as <-. simpl. split; [done|]. exists []. by rewrite app_nil_r.
    - destruct (compute_originalStr_wf original (bump (bump w)) ws Hh Es) as (? & _).
      destruct (compute_originalStr_taken _ _ _ Es) as (_ & ?). auto. }
  destruct Hws as (Wws & ext0 & Hext0 & Ha0).
  destruct (compute_model_clean _ _ _ Wws Em) as (Hs & _ & _ & _ & _ & j & Ej & Ewm).
  destruct (build_grows j (objects (fst ws))) as (ext1 & Hext1).
  destruct (build_above j (objects (fst ws)) ext1 Hext1) as [Hv Ha1].
  assert (Hle : (length (objects w) <= length (objects (fst ws)))%nat).
  { rewrite Hext0, length_app. lia. }
  exists (ext0 ++ ext1). rewrite Ho, Hmod, Hos.
  rewrite Ewm in Hs |- *. simpl in Hs |- *.
  split; [by rewrite Hext1, Hext0, <- app_assoc|]. split; [|split].
  - rewrite forallb_app, Ha0. simpl.
    rewrite forallb_forall in *. intros o Hin.
    by apply (obj_above_le (length (objects (fst ws)))), Ha1.
  - by apply (value_above_le (length (objects (fst ws)))).
  - done.
Qed.

(** The text compared with is the one taken when the reference was
    passed, also after the Original was edited in place: the hook is
    mounted on [{a: 1, b: 2}], the caller sets [original.a = 9] and calls
    [reset()]; the render derives the snapshot anew from the text taken at
    the mount, [{"a":1,"b":2}], while the Original now serializes to
    [{"a":9,"b":2}], and [isDirty()] returns false. *)
Remark isDirty_ignores_edit_in_place :
  render (VRef 0) (reset edited_in_place) (snd mounted_ab) = Returns reset_in_place
  /\ model (snd reset_in_place) <> model (snd mounted_ab)
  /\ JSON_stringify (objects (reset edited_in_place)) (VRef 0)
     = Returns (Some (JObj [("a", JNum 9); ("b", JNum 2)]))
  /\ JSON_stringify (objects (fst reset_in_place)) (VRef 0)
     = Returns (Some (JObj [("a", JNum 9); ("b", JNum 2)]))
  /\ JSON_stringify (objects (fst reset_in_place)) (model (snd reset_in_place))
     = Returns (Some (JObj [("a", JNum 1); ("b", JNum 2)]))
  /\ isDirty (fst reset_in_place) (snd reset_in_place) = Returns false
  /\ isDirty (fst reset_in_place) (snd reset_in_place) <> Returns true.
Proof. vm_compute. repeat split; discriminate. Qed.

(** C1: [isDirty()] returns true exactly when the serialization of the
    current Model Snapshot differs from [originalStr], and false exactly
    when the two are the same text.  [originalStr] is the serialization
    of the Original (of the empty object for a falsy Original) captured
    once per reference: at the first render, or at a render with a
    reference other than the one seen before; a render with the
    reference seen before keeps the text.  It is the text every
    derivation of the snapshot parses, also one forced by [reset()], and
    [isDirty()] is false right after a derivation. *)
Theorem isDirty_compares_with_taken_text :
  (forall (w : world) (m : memo),
      (isDirty w m = Returns true <->
         exists text, JSON_stringify (objects w) (model m) = Returns text
                      /\ text <> originalStr m)
      /\ (isDirty w m = Returns false <->
           JSON_stringify (objects w) (model m) = Returns (originalStr m)))
  /\ (forall (original : value) (w w' : world) (m : memo),
        mount original w = Returns (w', m) ->
        seen_original m = original
        /\ serialization_taken original (objects w) (originalStr m)
        /\ (truthy original = true ->
            forall w2 : world,
              isDirty w2 m = Returns true <->
              exists text, JSON_stringify (objects w2) (model m) = Returns text
                           /\ JSON_stringify (objects w) original <> Returns text))
  /\ (forall (original : value) (w w' : world) (m m' : memo),
        render original w m = Returns (w', m') ->
        seen_original m' = original
        /\ (original <> seen_original m ->
            serialization_taken original (objects w) (originalStr m')
            /\ (truthy original = true ->
                forall w2 : world,
                  isDirty w2 m' = Returns true <->
                  exists text, JSON_stringify (objects w2) (model m') = Returns text
                               /\ JSON_stringify (objects w) original <> Returns text))
        /\ (original = seen_original m -> originalStr m' = originalStr m)
        /\ (heap_wf (objects w) = true -> text_wf (originalStr m) = true ->
            model m' <> model m ->
            JSON_stringify (objects w') (model m') = Returns (originalStr m')
            /\ isDirty w' m' = Returns false)).
Proof.
  assert (Htie : forall original h (m : memo),
             serialization_taken original h (originalStr m) ->
             truthy original = true ->
             forall w2 : world,
               isDirty w2 m = Returns true <->
               exists text, JSON_stringify (objects w2) (model m) = Returns text
                            /\ JSON_stringify h original <> Returns text).
  { intros original h m Ht Htr w2. unfold serialization_taken in Ht.
    rewrite Htr in Ht. rewrite Ht.
    rewrite (proj1 (isDirty_differs w2 m)).
    split; intros (text & Hs & Hne); exists text; split; try done; congruence. }
  split; [exact isDirty_differs|]. split.
  - intros original w w' m Hm.
    destruct (mount_originalStr _ _ _ _ Hm) as [Hso Ht].
    split; [done|]. split; [done|]. by apply Htie.
  - intros original w w' m m' Hr.
    destruct (render_originalStr _ _ _ _ _ Hr) as (Hso & Hsame & Hnew).
    split; [done|]. split; [|split; [done|]].
    + intros Hne. split; [by apply Hnew|]. apply Htie. by apply Hnew.
    + intros Hh Wt Hne.
      assert (Hn : ~ (original = seen_original m /\ resetId w = seen_resetId m)).
      { intros [Eo Er]. by destruct (render_keeps_model _ _ _ _ _ Hr Eo Er). }
      destruct (render_derives _ _ _ _ _ Hh Wt Hr Hn) as (ext & _ & _ & _ & Hs).
      split; [done|]. by apply isDirty_differs.
Qed.

Lemma isDirty_compares_with_taken_text_witness :
  serialization_taken (VRef 0) (objects caller_world) (originalStr (snd mounted_ab))
  /\ originalStr (snd reset_in_place) = originalStr (snd mounted_ab)
  /\ isDirty (fst reset_in_place) (snd reset_in_place) = Returns false
  /\ isDirty edited_ab (snd mounted_ab) = Returns true.
Proof.
  destruct isDirty_compares_with_taken_text as (Hd & Hm & Hr).
  split; [|split; [|split]].
  - destruct (Hm (VRef 0) caller_world (fst mounted_ab) (snd mounted_ab))
      as (_ & Ht & _); [|exact Ht].
    vm_compute. reflexivity.
  - destruct (Hr (VRef 0) (reset edited_in_place) (fst reset_in_place)
                (snd mounted_ab) (snd reset_in_place)) as (_ & _ & Hsame & _).
    + vm_compute. reflexivity.
    + apply Hsame. vm_compute. reflexivity.
  - destruct (Hr (VRef 0) (reset edited_in_place) (fst reset_in_place)
                (snd mounted_ab) (snd reset_in_place)) as (_ & _ & _ & Hder).
    + vm_compute. reflexivity.
    + apply Hder.
      * vm_compute. reflexivity.
      * vm_compute. reflexivity.
      * vm_compute. discriminate.
  - destruct (Hm (VRef 0) caller_world (fst mounted_ab) (snd mounted_ab))
      as (_ & _ & Htie); [vm_compute; reflexivity|].
    apply (Htie eq_refl edited_ab).
    exists (Some (JObj [("a", JNum 5); ("b", JNum 2)])).
    split; [vm_compute; reflexivity|vm_compute; discriminate].
Defined.

(** ** The two triggers of a fresh clone *)

(** C9: a render keeps the Model Snapshot exactly when neither trigger
    fired, the Original being the reference seen before and the reset
    trigger the one seen before.  Otherwise, also for a new Original whose
    serialization is the old one, the snapshot is a deep clone made now:
    its root and every object added by the render are new, they refer to
    new objects only, and the snapshot serializes to [originalStr].  That
    text is the serialization of the Original taken in this render when
    the reference changed, and the text held before when [reset()] was the
    trigger; so the clone serializes as the Original does whenever the
    reference changed, and after [reset()] whenever the Original still
    serializes to the text held.  [reset()] changes the reset trigger,
    [refresh()] does not. *)
Theorem snapshot_rederived_by_two_triggers
  (original : value) (w w' : world) (m m' : memo) (l0 : loc) :
  heap_wf (objects w) = true ->
  text_wf (originalStr m) = true ->
  model m = VRef l0 ->
  (l0 < length (objects w))%nat ->
  render original w m = Returns (w', m') ->
  (model m' = model m <->
     original = seen_original m /\ resetId w = seen_resetId m)
  /\ (model m' = model m ->
      objects w' = objects w /\ originalStr m' = originalStr m)
  /\ (model m' <> model m ->
      exists (l : loc) (ext : heap),
        model m' = VRef l
        /\ (length (objects w) <= l)%nat
        /\ objects w' = objects w ++ ext
        /\ forallb (obj_above (length (objects w))) ext = true
        /\ JSON_stringify (objects w') (model m') = Returns (originalStr m'))
  /\ (original <> seen_original m ->
      serialization_taken original (objects w) (originalStr m'))
  /\ (original = seen_original m -> originalStr m' = originalStr m)
  /\ (model m' <> model m -> truthy original = true ->
      original <> seen_original m
      \/ JSON_stringify (objects w) original = Returns (originalStr m) ->
      JSON_stringify (objects w') original
      = JSON_stringify (objects w') (model m'))
  /\ ((seen_resetId m <= counter w)%nat -> resetId (reset w) <> seen_resetId m)
  /\ resetId (refresh w) = resetId w.
Proof.
  intros Hh Wt Hm Hl0 Hr.
  destruct (render_originalStr _ _ _ _ _ Hr) as (_ & Hsame & Hnew).
  assert (Hfresh : ~ (original = seen_original m /\ resetId w = seen_resetId m) ->
                   exists (l : loc) (ext : heap),
                     model m' = VRef l
                     /\ (length (objects w) <= l)%nat
                     /\ objects w' = objects w ++ ext
                     /\ forallb (obj_above (length (objects w))) ext = true
                     /\ JSON_stringify (objects w') (model m')
                        = Returns (originalStr m')).
  { intros Hn.
    destruct (render_derives _ _ _ _ _ Hh Wt Hr Hn) as (ext & Hext & Ha & Hv & Hs).
    destruct (render_returns _ _ _ _ _ Hr)
      as (ws & wm & _ & _ & _ & _ & _ & _ & _ & _ & _ & Hmod & _ & Hp).
    assert (Hl : exists l, model m' = VRef l).
    { rewrite Hmod. destruct Hp as [(_ & _ & E & _)|(l & E & _)]; [|eauto].
      rewrite E, Hm. eauto. }
    destruct Hl as (l & El). exists l, ext. rewrite El in Hv. simpl in Hv.
    apply Nat.leb_le in Hv. auto. }
  assert (Hderived : model m' <> model m ->
                     ~ (original = seen_original m /\ resetId w = seen_resetId m)).
  { intros Hne [Eo Er]. by destruct (render_keeps_model _ _ _ _ _ Hr Eo Er). }
  split; [split|split; [|split; [|split; [|split; [|split; [|split]]]]]].
  - intros Esame.
    destruct (decide (original = seen_original m /\ resetId w = seen_resetId m))
      as [Hd|Hd]; [done|].
    destruct (Hfresh Hd) as (l & ext & El & Hle & _).
    rewrite Esame, Hm in El. injection El as ->. lia.
  - intros [Eo Er]. by destruct (render_keeps_model _ _ _ _ _ Hr Eo Er).
  - intros Esame.
    destruct (decide (original = seen_original m /\ resetId w = seen_resetId m))
      as [[Eo Er]|Hd];
      [by destruct (render_keeps_model _ _ _ _ _ Hr Eo Er) as (_ & ? & ?)|].
    destruct (Hfresh Hd) as (l & ext & El & Hle & _).
    rewrite Esame, Hm in El. injection El as ->. lia.
  - intros Hne. by apply Hfresh, Hderived.
  - done.
  - done.
  - intros Hne Htr Hcase.
    destruct (Hfresh (Hderived Hne)) as (l & ext & _ & _ & Hext & _ & Hs).
    assert (Ho : JSON_stringify (objects w) original = Returns (originalStr m')).
    { destruct (decide (original = seen_original m)) as [Eo|Eo].
      - destruct Hcase as [Hc|Hc]; [done|]. by rewrite (Hsame Eo).
      - pose proof (Hnew Eo) as Ht. unfold serialization_taken in Ht.
        by rewrite Htr in Ht. }
    rewrite Hs, Hext. by apply stringify_extend.
  - simpl. lia.
  - reflexivity.
Qed.

Lemma snapshot_rederived_by_two_triggers_witness :
  (model (snd rendered_twin) = model (snd mounted_twin) <->
     VRef 1 = seen_original (snd mounted_twin)
     /\ resetId (fst mounted_twin) = seen_resetId (snd mounted_twin))
  /\ (model (snd rendered_twin) = model (snd mounted_twin) ->
      objects (fst rendered_twin) = objects (fst mounted_twin)
      /\ originalStr (snd rendered_twin) = originalStr (snd mounted_twin))
  /\ (model (snd rendered_twin) <> model (snd mounted_twin) ->
      exists (l : loc) (ext : heap),
        model (snd rendered_twin) = VRef l
        /\ (length (objects (fst mounted_twin)) <= l)%nat
        /\ objects (fst rendered_twin) = objects (fst mounted_twin) ++ ext
        /\ forallb (obj_above (length (objects (fst mounted_twin)))) ext = true
        /\ JSON_stringify (objects (fst rendered_twin)) (model (snd rendered_twin))
           = Returns (originalStr (snd rendered_twin)))
  /\ (VRef 1 <> seen_original (snd mounted_twin) ->
      serialization_taken (VRef 1) (objects (fst mounted_twin))
        (originalStr (snd rendered_twin)))
  /\ (VRef 1 = seen_original (snd mounted_twin) ->
      originalStr (snd rendered_twin) = originalStr (snd mounted_twin))
  /\ (model (snd rendered_twin) <> model (snd mounted_twin) ->
      truthy (VRef 1) = true ->
      VRef 1 <> seen_original (snd mounted_twin)
      \/ JSON_stringify (objects (fst mounted_twin)) (VRef 1)
         = Returns (originalStr (snd mounted_twin)) ->
      JSON_stringify (objects (fst rendered_twin)) (VRef 1)
      = JSON_stringify (objects (fst rendered_twin)) (model (snd rendered_twin)))
  /\ ((seen_resetId (snd mounted_twin) <= counter (fst mounted_twin))%nat ->
      resetId (reset (fst mounted_twin)) <> seen_resetId (snd mounted_twin))
  /\ resetId (refresh (fst mounted_twin)) = resetId (fst mounted_twin).
Proof.
  apply (snapshot_rederived_by_two_triggers (VRef 1)
           (fst mounted_twin) (fst rendered_twin)
           (snd mounted_twin) (snd rendered_twin) 2%nat).
  - vm_compute. reflexivity.
  - vm_compute. reflexivity.
  - vm_compute. reflexivity.
  - vm_compute. lia.
  - vm_compute. reflexivity.
Defined.

(** ** reset() and the Original *)


Section ResetAndOriginal.
Context `{Runtime}.





End ResetAndOriginal.


(** ** Identity of child proxies across other operations *)


Section QuietSteps.
Context `{Runtime}.






End QuietSteps.

